(** * TCI Trucking: the driver tracking server (server.js)

    A shallow embedding of the Express route handlers of [server.js] and of
    the Mongoose model [Driver] they work on, followed by the properties of
    the tracking state machine and of location ingestion.

    Modelling choices, all visible in the definitions below:
    - a request body is a JavaScript object whose fields hold JSON scalars
      (string, number, boolean, null) or are missing ([undefined]); arrays
      and nested objects as field values are outside the model;
    - a JavaScript number is NaN, an infinity, or a dyadic value [m * 2^e]
      (the sign of zero, which no handler observes, is not represented);
    - a [Date] is its time value in milliseconds, or the Invalid Date;
    - the MongoDB collection is a finite map from [_id] to document, so that
      identifiers are unique by construction; one Mongoose call is one
      atomic step on it;
    - the handlers run in a small monad that reads the request's environment
      (server clock, whether the store can be reached), threads the store
      and may throw, as the [async] functions with [try]/[catch] do; requests
      are served one after the other;
    - the routes are those of the first listing of [server.js], with the
      POST /api/drivers route of the second;
    - what the JavaScript engine and the BSON driver compute on strings
      ([Number(s)], [Date.parse], [n.toString()], the [ObjectId]
      constructor) is a parameter, the record [runtime]. *)

From Stdlib Require Import ZArith Ascii.
From stdpp Require Import gmap strings list fin_maps sorting pretty.

Local Open Scope Z_scope.

(** ** JavaScript values *)

Inductive number :=
| NaN
| Infinity (negative : bool)
| Finite (m e : Z).

Definition isNaN (n : number) : bool :=
  match n with NaN => true | _ => false end.

Definition is_zero (n : number) : bool :=
  match n with Finite m _ => m =? 0 | _ => false end.

Definition number_eqb (a b : number) : bool :=
  match a, b with
  | Infinity s, Infinity s' => Bool.eqb s s'
  | Finite m e, Finite m' e' =>
      let k := Z.min e e' in m * 2 ^ (e - k) =? m' * 2 ^ (e' - k)
  | _, _ => false
  end.

Definition of_Z (z : Z) : number := Finite z 0.

(** A [Date] object: [new Date(NaN)] is the Invalid Date. *)
Inductive Date :=
| InvalidDate
| DateValue (ms : Z).

(** ECMAScript TimeClip: a finite number within 8.64e15 ms of the epoch,
    truncated towards zero. *)
Definition TimeClip (n : number) : Date :=
  match n with
  | NaN | Infinity _ => InvalidDate
  | Finite m e =>
      if 0 <=? e
      then if 8640000000000000 <? Z.abs m * 2 ^ e then InvalidDate
           else DateValue (m * 2 ^ e)
      else if 8640000000000000 * 2 ^ (- e) <? Z.abs m then InvalidDate
           else DateValue (Z.quot m (2 ^ (- e)))
  end.

Inductive value :=
| VUndefined
| VNull
| VBool (b : bool)
| VNumber (n : number)
| VString (s : string).

(** [a === b] *)
Definition strict_equals (a b : value) : bool :=
  match a, b with
  | VUndefined, VUndefined => true
  | VNull, VNull => true
  | VBool x, VBool y => Bool.eqb x y
  | VNumber x, VNumber y => number_eqb x y
  | VString x, VString y => String.eqb x y
  | _, _ => false
  end.

Definition ToBoolean (v : value) : bool :=
  match v with
  | VUndefined | VNull => false
  | VBool b => b
  | VNumber n => negb (isNaN n || is_zero n)
  | VString s => negb (String.eqb s "")
  end.

(** [a || b] *)
Definition or_else (a b : value) : value :=
  if ToBoolean a then a else b.

(** [req.body] and the destructuring [const { k } = req.body]. *)
Definition prop (body : gmap string value) (k : string) : value :=
  default VUndefined (body !! k).

(** ** What the platform computes *)

Definition ObjectId := N.

Record runtime := {
  StringToNumber : string -> number;
  NumberToString : number -> string;
  Date_parse : string -> Date;
  ObjectId_of : value -> option ObjectId
}.

(** [new Date(v)] with one argument. *)
Definition new_Date (rt : runtime) (v : value) : Date :=
  match v with
  | VUndefined => InvalidDate
  | VNull => DateValue 0
  | VBool b => DateValue (if b then 1 else 0)
  | VNumber n => TimeClip n
  | VString s => Date_parse rt s
  end.

(** ** The Driver schema *)

Record Location := {
  lat : option number;
  lng : option number;
  timestamp : option Z;
  speed : option number;
  accuracy : option number;
  address : option string
}.

Record Driver := {
  _id : ObjectId;
  name : string;
  phone : string;
  isTracking : bool;
  lastLocation : Location;
  trackingHistory : list Location;
  consentGiven : bool;
  consentTimestamp : option Z;
  createdAt : Z;
  updatedAt : Z
}.

(** The nested path [lastLocation] of a new document: only the default of
    [speed] is set. *)
Definition lastLocation_default : Location :=
  {| lat := None; lng := None; timestamp := None; speed := Some (of_Z 0);
     accuracy := None; address := None |}.

(** What [new Driver({ name, phone })] holds once saved at time [now]. *)
Definition Driver_document (id : ObjectId) (nm ph : string) (now : Z) : Driver :=
  {| _id := id; name := nm; phone := ph; isTracking := false;
     lastLocation := lastLocation_default; trackingHistory := [];
     consentGiven := false; consentTimestamp := None;
     createdAt := now; updatedAt := now |}.

(** ** Errors and the handler monad *)

Inductive error :=
| CastError (kind path : string)
| ValidatorError (path : string)
| MongoError.

Inductive outcome (A : Type) :=
| Return (a : A)
| Throw (err : error).
Arguments Return {A} a.
Arguments Throw {A} err.

Record env := {
  clock : Z;
  connected : bool
}.

Record store := {
  drivers : gmap ObjectId Driver;
  nextId : ObjectId
}.

Definition Async (A : Type) : Type := env -> store -> outcome A * store.

Definition ret {A} (a : A) : Async A := fun _ s => (Return a, s).

Definition bind {A B} (m : Async A) (k : A -> Async B) : Async B :=
  fun e s =>
    match m e s with
    | (Return a, s') => k a e s'
    | (Throw err, s') => (Throw err, s')
    end.

Definition try_catch {A} (m : Async A) (handler : error -> Async A) : Async A :=
  fun e s =>
    match m e s with
    | (Return a, s') => (Return a, s')
    | (Throw err, s') => handler err e s'
    end.

(** A synchronous step that may throw, inside an [async] function. *)
Definition lift {A} (o : outcome A) : Async A := fun _ s => (o, s).

(** [new Date()] *)
Definition Date_now : Async Date := fun e s => (Return (DateValue (clock e)), s).

Declare Scope async_scope.
Delimit Scope async_scope with async.
Notation "x <- m ;; k" := (bind m (fun x => k))
  (at level 100, m at next level, right associativity) : async_scope.
Notation "m ;;; k" := (bind m (fun _ => k))
  (at level 100, right associativity) : async_scope.
Notation "'try' m 'catch' h" := (try_catch m h)
  (at level 100, m at level 200, h at level 200) : async_scope.
Local Open Scope async_scope.

Definition obind {A B} (o : outcome A) (k : A -> outcome B) : outcome B :=
  match o with
  | Return a => k a
  | Throw err => Throw err
  end.

(** ** Mongoose casting *)

(** SchemaNumber: null and undefined are left alone, the empty string is
    null, strings and booleans go through [Number], NaN is refused. *)
Definition castNumber (rt : runtime) (path : string) (v : value) : outcome (option number) :=
  match v with
  | VUndefined | VNull => Return None
  | VBool b => Return (Some (of_Z (if b then 1 else 0)))
  | VNumber n => if isNaN n then Throw (CastError "Number" path) else Return (Some n)
  | VString s =>
      if String.eqb s "" then Return None
      else let n := StringToNumber rt s in
           if isNaN n then Throw (CastError "Number" path) else Return (Some n)
  end.

(** SchemaDate on a [Date] instance: the Invalid Date is refused. *)
Definition castDate (path : string) (d : Date) : outcome (option Z) :=
  match d with
  | InvalidDate => Throw (CastError "date" path)
  | DateValue ms => Return (Some ms)
  end.

(** SchemaString: scalars are cast with [toString()]. *)
Definition castString (rt : runtime) (v : value) : option string :=
  match v with
  | VUndefined | VNull => None
  | VBool b => Some (if b then "true" else "false")
  | VNumber n => Some (NumberToString rt n)
  | VString s => Some s
  end.

(** The filter [{ _id: v }] for a scalar [v]: a null or undefined value is
    not cast and matches no document. (An object in that place would be read
    by MongoDB as a query operator; request bodies with such a driverId are
    outside this development, as the header says.) *)
Definition castObjectId (rt : runtime) (v : value) : outcome (option ObjectId) :=
  match v with
  | VUndefined | VNull => Return None
  | _ =>
      match ObjectId_of rt v with
      | Some i => Return (Some i)
      | None => Throw (CastError "ObjectId" "_id")
      end
  end.

(** An object literal [{ lat, lng, accuracy, timestamp, speed }] as a handler
    builds it, before casting. *)
Record location_literal := {
  lit_lat : value;
  lit_lng : value;
  lit_accuracy : value;
  lit_timestamp : Date;
  lit_speed : value
}.

(** Mongoose walks the keys of an update from the last to the first, so of
    several fields that fail their cast it is the last one of the literal
    whose error is thrown. *)
Definition castLocation (rt : runtime) (path : string) (l : location_literal)
  : outcome Location :=
  obind (castNumber rt (path +:+ ".speed") (lit_speed l)) (fun sp =>
  obind (castDate (path +:+ ".timestamp") (lit_timestamp l)) (fun ts =>
  obind (castNumber rt (path +:+ ".accuracy") (lit_accuracy l)) (fun ac =>
  obind (castNumber rt (path +:+ ".lng") (lit_lng l)) (fun ln =>
  obind (castNumber rt (path +:+ ".lat") (lit_lat l)) (fun la =>
  Return {| lat := la; lng := ln; timestamp := ts; speed := sp;
            accuracy := ac; address := None |}))))).

(** The two update documents of [server.js]. *)
Inductive update :=
| SetTracking (tracking consent : bool) (consentTime : option Date)
| SetLocationAndPush (last pushed : location_literal).

Definition set_tracking (t c : bool) (ts : option Z) (d : Driver) : Driver :=
  {| _id := _id d; name := name d; phone := phone d; isTracking := t;
     lastLocation := lastLocation d; trackingHistory := trackingHistory d;
     consentGiven := c; consentTimestamp := ts;
     createdAt := createdAt d; updatedAt := updatedAt d |}.

Definition set_location_and_push (last pushed : Location) (d : Driver) : Driver :=
  {| _id := _id d; name := name d; phone := phone d; isTracking := isTracking d;
     lastLocation := last; trackingHistory := trackingHistory d ++ [pushed];
     consentGiven := consentGiven d; consentTimestamp := consentTimestamp d;
     createdAt := createdAt d; updatedAt := updatedAt d |}.

(** [{ timestamps: true }]: every update also sets [updatedAt]. *)
Definition touch (now : Z) (d : Driver) : Driver :=
  {| _id := _id d; name := name d; phone := phone d; isTracking := isTracking d;
     lastLocation := lastLocation d; trackingHistory := trackingHistory d;
     consentGiven := consentGiven d; consentTimestamp := consentTimestamp d;
     createdAt := createdAt d; updatedAt := now |}.

(** Casting an update document gives the change it makes to a document.
    The pushed sub-document goes through the same field casts as
    [lastLocation]. *)
Definition castUpdate (rt : runtime) (u : update) : outcome (Driver -> Driver) :=
  match u with
  | SetTracking t c None => Return (set_tracking t c None)
  | SetTracking t c (Some d) =>
      obind (castDate "consentTimestamp" d) (fun ts => Return (set_tracking t c ts))
  | SetLocationAndPush last pushed =>
      obind (castLocation rt "lastLocation" last) (fun l =>
      obind (castLocation rt "trackingHistory" pushed) (fun p =>
      Return (set_location_and_push l p)))
  end.

(** ** The Mongoose model [Driver] *)

Definition with_drivers (m : gmap ObjectId Driver) (s : store) : store :=
  {| drivers := m; nextId := nextId s |}.

(** Every call on the collection fails when the store cannot be reached. *)
Definition on_store {A} (f : Z -> store -> A * store) : Async A :=
  fun e s =>
    if connected e then let '(a, s') := f (clock e) s in (Return a, s')
    else (Throw MongoError, s).

Definition newer_first (a b : Driver) : Prop := (createdAt b <= createdAt a)%Z.

#[global] Instance newer_first_dec a b : Decision (newer_first a b).
Proof. unfold newer_first. apply _. Defined.

(** [Driver.find().sort({ createdAt: -1 })] *)
Definition Driver_find_sort_createdAt_desc : Async (list Driver) :=
  on_store (fun _ s => (merge_sort newer_first (map_to_list (drivers s)).*2, s)).

(** [Driver.findOneAndUpdate({ _id: id }, u, { new: true })]: the filter and
    the update are cast before the store is asked; no upsert. *)
Definition Driver_findOneAndUpdate (rt : runtime) (id : value) (u : update)
  : Async (option Driver) :=
  q <- lift (castObjectId rt id) ;;
  f <- lift (castUpdate rt u) ;;
  on_store (fun now s =>
    match q with
    | None => (None, s)
    | Some i =>
        match drivers s !! i with
        | None => (None, s)
        | Some d =>
            let d' := touch now (f d) in
            (Some d', with_drivers (<[i := d']> (drivers s)) s)
        end
    end).

(** [Driver.deleteMany({})] *)
Definition Driver_deleteMany : Async unit :=
  on_store (fun _ s => (tt, with_drivers ∅ s)).

(** A document before it is saved: [name] and [phone] after casting. *)
Record draft := {
  draft_name : option string;
  draft_phone : option string
}.

(** [required: true] on a String path: present and not empty. *)
Definition required (path : string) (o : option string) : outcome string :=
  match o with
  | Some s => if String.eqb s "" then Throw (ValidatorError path) else Return s
  | None => Throw (ValidatorError path)
  end.

Definition validate (d : draft) : outcome (string * string) :=
  obind (required "name" (draft_name d)) (fun n =>
  obind (required "phone" (draft_phone d)) (fun p => Return (n, p))).

Fixpoint validate_all (ds : list draft) : outcome (list (string * string)) :=
  match ds with
  | [] => Return []
  | d :: ds' =>
      obind (validate d) (fun x =>
      obind (validate_all ds') (fun xs => Return (x :: xs)))
  end.

(** One insertion: the document gets a fresh identifier and its timestamps. *)
Definition insert_one (now : Z) (np : string * string) (s : store) : Driver * store :=
  let d := Driver_document (nextId s) np.1 np.2 now in
  (d, {| drivers := <[nextId s := d]> (drivers s); nextId := N.succ (nextId s) |}).

Fixpoint insert_all (now : Z) (nps : list (string * string)) (s : store)
  : list Driver * store :=
  match nps with
  | [] => ([], s)
  | np :: nps' =>
      let '(d, s1) := insert_one now np s in
      let '(ds, s2) := insert_all now nps' s1 in
      (d :: ds, s2)
  end.

(** [driver.save()] *)
Definition Driver_save (d : draft) : Async Driver :=
  np <- lift (validate d) ;;
  on_store (fun now s => insert_one now np s).

(** [Driver.insertMany(docs)]: all documents are validated first. *)
Definition Driver_insertMany (ds : list draft) : Async (list Driver) :=
  nps <- lift (validate_all ds) ;;
  on_store (fun now s => insert_all now nps s).

(** ** Responses *)

(** The plain objects of the listing fallback. *)
Record mock := {
  mock_id : string;
  mock_name : string;
  mock_phone : string;
  mock_isTracking : bool
}.

Inductive reply :=
| DriverList (l : list Driver)
| MockList (l : list mock)
| SuccessDriver (d : Driver)
| Success
| SuccessCount (n : nat)
| DriverJson (d : Driver)
| DriverNotFound
| ErrorMessage (err : error).

Record response := {
  status : nat;
  json : reply
}.

(** [res.json(r)] and [res.status(code).json(r)] *)
Definition res_json (r : reply) : Async response :=
  ret {| status := 200; json := r |}.

Definition res_status_json (code : nat) (r : reply) : Async response :=
  ret {| status := code; json := r |}.

(** ** The routes *)

Definition mock_drivers : list mock :=
  [ {| mock_id := "1"; mock_name := "John Smith"; mock_phone := "+1-555-0101";
       mock_isTracking := false |};
    {| mock_id := "2"; mock_name := "Maria Garcia"; mock_phone := "+1-555-0102";
       mock_isTracking := false |} ].

(** GET /api/drivers (listDrivers) *)
Definition get_api_drivers : Async response :=
  try (
    drivers <- Driver_find_sort_createdAt_desc ;;
    res_json (DriverList drivers)
  ) catch (fun error =>
    res_json (MockList mock_drivers)).

(** POST /api/driver/tracking (applyTrackingCommand) *)
Definition post_api_driver_tracking (rt : runtime) (body : gmap string value)
  : Async response :=
  try (
    let driverId := prop body "driverId" in
    let action := prop body "action" in
    now <- Date_now ;;
    driver <- Driver_findOneAndUpdate rt driverId
      (SetTracking
         (strict_equals action (VString "start_tracking"))
         (strict_equals action (VString "start_tracking"))
         (if strict_equals action (VString "start_tracking")
          then Some now else None)) ;;
    match driver with
    | None => res_status_json 404 DriverNotFound
    | Some d => res_json (SuccessDriver d)
    end
  ) catch (fun error =>
    res_status_json 500 (ErrorMessage error)).

(** POST /api/driver/location (applyLocationUpdate) *)
Definition post_api_driver_location (rt : runtime) (body : gmap string value)
  : Async response :=
  try (
    let driverId := prop body "driverId" in
    let latitude := prop body "latitude" in
    let longitude := prop body "longitude" in
    let accuracy := prop body "accuracy" in
    let timestamp := prop body "timestamp" in
    let speed := prop body "speed" in
    driver <- Driver_findOneAndUpdate rt driverId
      (SetLocationAndPush
         {| lit_lat := latitude; lit_lng := longitude; lit_accuracy := accuracy;
            lit_timestamp := new_Date rt timestamp;
            lit_speed := or_else speed (VNumber (of_Z 0)) |}
         {| lit_lat := latitude; lit_lng := longitude; lit_accuracy := accuracy;
            lit_timestamp := new_Date rt timestamp;
            lit_speed := or_else speed (VNumber (of_Z 0)) |}) ;;
    match driver with
    | None => res_status_json 404 DriverNotFound
    | Some _ => res_json Success
    end
  ) catch (fun error =>
    res_status_json 500 (ErrorMessage error)).

Definition sampleDrivers : list draft :=
  [ {| draft_name := Some "John Smith"; draft_phone := Some "+1-555-0101" |};
    {| draft_name := Some "Maria Garcia"; draft_phone := Some "+1-555-0102" |};
    {| draft_name := Some "David Johnson"; draft_phone := Some "+1-555-0103" |};
    {| draft_name := Some "Sarah Williams"; draft_phone := Some "+1-555-0104" |} ].

(** POST /api/init-drivers (seedSampleDrivers) *)
Definition post_api_init_drivers : Async response :=
  try (
    Driver_deleteMany ;;;
    drivers <- Driver_insertMany sampleDrivers ;;
    res_json (SuccessCount (length drivers))
  ) catch (fun error =>
    res_status_json 500 (ErrorMessage error)).

(** POST /api/drivers (createDriver), the route of the second listing of
    [server.js]. *)
Definition post_api_drivers (rt : runtime) (body : gmap string value)
  : Async response :=
  try (
    let name := prop body "name" in
    let phone := prop body "phone" in
    driver <- Driver_save {| draft_name := castString rt name;
                             draft_phone := castString rt phone |} ;;
    res_json (DriverJson driver)
  ) catch (fun error =>
    res_status_json 500 (ErrorMessage error)).

(** The object literal both halves of the location update are built from. *)
Definition location_fields (rt : runtime) (body : gmap string value) : location_literal :=
  {| lit_lat := prop body "latitude"; lit_lng := prop body "longitude";
     lit_accuracy := prop body "accuracy";
     lit_timestamp := new_Date rt (prop body "timestamp");
     lit_speed := or_else (prop body "speed") (VNumber (of_Z 0)) |}.

(** The Location a payload is stored as, when it passes the casts. *)
Definition normalized (rt : runtime) (body : gmap string value) : outcome Location :=
  castLocation rt "lastLocation" (location_fields rt body).

(** The request addresses the document [i]. *)
Definition addresses (rt : runtime) (body : gmap string value) (i : ObjectId) : Prop :=
  castObjectId rt (prop body "driverId") = Return (Some i).

(** ** Requests and reachable stores *)

Inductive request :=
| ListDrivers
| CreateDriver (body : gmap string value)
| ToggleTracking (body : gmap string value)
| SubmitLocation (body : gmap string value)
| SeedSampleDrivers.

Definition handle (rt : runtime) (r : request) : Async response :=
  match r with
  | ListDrivers => get_api_drivers
  | CreateDriver body => post_api_drivers rt body
  | ToggleTracking body => post_api_driver_tracking rt body
  | SubmitLocation body => post_api_driver_location rt body
  | SeedSampleDrivers => post_api_init_drivers
  end.

(** The stores the server can be in: it starts on an empty collection and
    serves one request after the other, each at some time and with the store
    reachable or not. *)
Inductive reachable (rt : runtime) : store -> Prop :=
| reachable_empty n : reachable rt {| drivers := ∅; nextId := n |}
| reachable_step s e r : reachable rt s -> reachable rt (handle rt r e s).2.

(** A run of location updates, with the response to each. *)
Fixpoint submit_all (rt : runtime) (calls : list (env * gmap string value)) (s : store)
  : list (outcome response) * store :=
  match calls with
  | [] => ([], s)
  | (e, body) :: calls' =>
      let '(r, s1) := post_api_driver_location rt body e s in
      let '(rs, s2) := submit_all rt calls' s1 in
      (r :: rs, s2)
  end.

(** ** The spec's reading of a valid location payload (section 4.1)

    [lat] and [lng] present and numeric, [accuracy] and [speed] numeric and
    not negative when present, and a timestamp that is a point in time or is
    absent (the time of receipt then stands for it). *)

Definition numeric (v : value) : bool :=
  match v with
  | VNumber n => negb (isNaN n)
  | _ => false
  end.

Definition non_negative (n : number) : bool :=
  match n with
  | NaN => false
  | Infinity negative => negb negative
  | Finite m _ => 0 <=? m
  end.

Definition absent_or_non_negative (v : value) : bool :=
  match v with
  | VUndefined => true
  | VNumber n => non_negative n
  | _ => false
  end.

Definition is_valid_date (d : Date) : bool :=
  match d with
  | InvalidDate => false
  | DateValue _ => true
  end.

Definition absent_or_valid_date (rt : runtime) (v : value) : bool :=
  match v with
  | VUndefined => true
  | _ => is_valid_date (new_Date rt v)
  end.

Definition valid_payload (rt : runtime) (body : gmap string value) : bool :=
  numeric (prop body "latitude") && numeric (prop body "longitude")
  && absent_or_non_negative (prop body "accuracy")
  && absent_or_non_negative (prop body "speed")
  && absent_or_valid_date rt (prop body "timestamp").

Definition number_of (v : value) : option number :=
  match v with
  | VNumber n => Some n
  | _ => None
  end.

(** The client's timestamp, and the time of receipt [now] when there is
    none. *)
Definition timestamp_by_spec (rt : runtime) (now : Z) (v : value) : option Z :=
  match v with
  | VUndefined => Some now
  | _ => match new_Date rt v with
         | DateValue t => Some t
         | InvalidDate => None
         end
  end.

(** The normalized Location the spec has a valid payload, received at time
    [now], stored as: the numbers as sent, a speed of 0 when none (or zero)
    is sent, the client's timestamp, the time of receipt when there is none. *)
Definition normalized_by_spec (rt : runtime) (now : Z) (body : gmap string value)
  : Location :=
  {| lat := number_of (prop body "latitude");
     lng := number_of (prop body "longitude");
     timestamp := timestamp_by_spec rt now (prop body "timestamp");
     speed := Some match prop body "speed" with
                   | VNumber v => if is_zero v then of_Z 0 else v
                   | _ => of_Z 0
                   end;
     accuracy := number_of (prop body "accuracy");
     address := None |}.


(** What Mongoose refuses at a Number path: NaN, and a string that is not
    empty and that [Number] reads as NaN. *)
Definition not_castable_to_number (rt : runtime) (v : value) : bool :=
  match v with
  | VNumber n => isNaN n
  | VString s => negb (String.eqb s "") && isNaN (StringToNumber rt s)
  | _ => false
  end.

(** ** Notions the statements use *)

(** The update document of the tracking route, for an action read at time
    [now]. *)
Definition tracking_update (action : value) (now : Z) : update :=
  SetTracking
    (strict_equals action (VString "start_tracking"))
    (strict_equals action (VString "start_tracking"))
    (if strict_equals action (VString "start_tracking")
     then Some (DateValue now) else None).

(** The update document of the location route. *)
Definition location_update (rt : runtime) (body : gmap string value) : update :=
  SetLocationAndPush (location_fields rt body) (location_fields rt body).

(** The documents POST /api/init-drivers inserts, from the first free
    identifier on. *)
Definition sample_documents (first : ObjectId) (now : Z) : list Driver :=
  [ Driver_document first "John Smith" "+1-555-0101" now;
    Driver_document (N.succ first) "Maria Garcia" "+1-555-0102" now;
    Driver_document (N.succ (N.succ first)) "David Johnson" "+1-555-0103" now;
    Driver_document (N.succ (N.succ (N.succ first))) "Sarah Williams" "+1-555-0104" now ].

(** The collection that holds the documents [ds], inserted in that order. *)
Definition collection_of (ds : list Driver) : gmap ObjectId Driver :=
  foldl (fun m d => <[_id d := d]> m) ∅ ds.

(** The invariant of the data model: tracking implies recorded consent. *)
Definition consent_recorded (d : Driver) : Prop :=
  isTracking d = true -> consentGiven d = true /\ consentTimestamp d <> None.

Definition all_consent_recorded (s : store) : Prop :=
  map_Forall (fun _ d => consent_recorded d) (drivers s).

(** The answer to an accepted location update, [{ success: true }]. *)
Definition accepted : outcome response :=
  Return {| status := 200; json := Success |}.

(** ** The calls on the store

    A Mongoose call is one atomic operation of the store. A handler awaits
    its calls one after the other; between two calls, and before and after
    them, the calls of other requests may be served. *)

Inductive store_call :=
| FindSorted
| FindOneAndUpdate (id : value) (u : update)
| DeleteMany
| InsertMany (ds : list draft)
| Save (d : draft).

Definition perform (rt : runtime) (c : store_call) (e : env) (s : store) : store :=
  match c with
  | FindSorted => (Driver_find_sort_createdAt_desc e s).2
  | FindOneAndUpdate id u => (Driver_findOneAndUpdate rt id u e s).2
  | DeleteMany => (Driver_deleteMany e s).2
  | InsertMany ds => (Driver_insertMany ds e s).2
  | Save d => (Driver_save d e s).2
  end.



(** The store after a sequence of calls, each served in its own
    environment: any interleaving of the calls of any requests. *)
Fixpoint perform_all (rt : runtime) (cs : list (env * store_call)) (s : store) : store :=
  match cs with
  | [] => s
  | (e, c) :: cs' => perform_all rt cs' (perform rt c e s)
  end.


(** ** A runtime and requests for the examples

    The example runtime reads decimal integers as numbers and 24-digit
    hexadecimal strings as identifiers, prints the integer part of a number,
    and parses no date string. *)

Definition digit_of (base : N) (c : ascii) : option N :=
  let n := N_of_ascii c in
  let d := if (48 <=? n)%N && (n <=? 57)%N then Some (n - 48)%N
           else if (97 <=? n)%N && (n <=? 102)%N then Some (n - 87)%N
           else None in
  match d with
  | Some k => if (k <? base)%N then Some k else None
  | None => None
  end.

Fixpoint digits_to_N (base : N) (acc : N) (s : string) : option N :=
  match s with
  | EmptyString => Some acc
  | String c s' =>
      match digit_of base c with
      | Some k => digits_to_N base (acc * base + k)%N s'
      | None => None
      end
  end.

Definition example_runtime : runtime :=
  {| StringToNumber := fun s =>
       match digits_to_N 10 0 s with
       | Some n => of_Z (Z.of_N n)
       | None => NaN
       end;
     NumberToString := fun n =>
       match n with
       | NaN => "NaN"
       | Infinity negative => if negative then "-Infinity" else "Infinity"
       | Finite m e =>
           pretty (if 0 <=? e then m * 2 ^ e else Z.quot m (2 ^ (- e)))
       end;
     Date_parse := fun _ => InvalidDate;
     ObjectId_of := fun v =>
       match v with
       | VString s => if (String.length s =? 24)%nat then digits_to_N 16 0 s else None
       | _ => None
       end |}.

Definition online (now : Z) : env := {| clock := now; connected := true |}.

Definition offline (now : Z) : env := {| clock := now; connected := false |}.

Definition empty_store : store := {| drivers := ∅; nextId := 0%N |}.

(** The store after POST /api/init-drivers at time 1000: the four sample
    drivers, with identifiers 0 to 3. *)
Definition seeded : store := (post_api_init_drivers (online 1000) empty_store).2.

Definition maria : Driver :=
  Driver_document 1%N "Maria Garcia" "+1-555-0102" 1000.

Definition maria_id : value := VString "000000000000000000000001".

Definition start_body : gmap string value :=
  {[ "driverId" := maria_id; "action" := VString "start_tracking" ]}.

Definition garbage_body : gmap string value :=
  {[ "driverId" := maria_id; "action" := VString "garbage" ]}.

(** The seeded store after Maria Garcia started tracking at time 2000. *)
Definition active : store :=
  (handle example_runtime (ToggleTracking start_body) (online 2000)
     (handle example_runtime SeedSampleDrivers (online 1000) empty_store).2).2.

Definition maria_active : Driver :=
  {| _id := 1%N; name := "Maria Garcia"; phone := "+1-555-0102"; isTracking := true;
     lastLocation := lastLocation_default; trackingHistory := [];
     consentGiven := true; consentTimestamp := Some 2000;
     createdAt := 1000; updatedAt := 2000 |}.

(** latitude 40.5, longitude -74.25, accuracy 5, sent at 1700000000000 ms. *)
Definition location_body : gmap string value :=
  {[ "driverId" := maria_id;
     "latitude" := VNumber (Finite 81 (-1));
     "longitude" := VNumber (Finite (-297) (-2));
     "accuracy" := VNumber (of_Z 5);
     "timestamp" := VNumber (of_Z 1700000000000) ]}.

Definition no_latitude : gmap string value := delete "latitude" location_body.

Definition no_timestamp : gmap string value := delete "timestamp" location_body.

Definition bad_latitude : gmap string value :=
  <["latitude" := VString "forty"]> location_body.

Definition malformed_id : gmap string value :=
  <["driverId" := VString "xyz"]> location_body.

Definition unknown_body : gmap string value :=
  <["driverId" := VString "0000000000000000000000ff"]> location_body.

Definition two_calls : list (env * gmap string value) :=
  [ (online 3000, location_body); (online 3500, no_latitude) ].

(** ** The rest of the server *)

(** [Driver.find()] *)
Definition Driver_find : Async (list Driver) :=
  on_store (fun _ s => ((map_to_list (drivers s)).*2, s)).

(** GET /api/drivers as the second listing of [server.js] has it: no sort, and
    the error is reported instead of the mock drivers. *)
Definition get_api_drivers_unsorted : Async response :=
  try (
    drivers <- Driver_find ;;
    res_json (DriverList drivers)
  ) catch (fun error =>
    res_status_json 500 (ErrorMessage error)).

(** The store after a sequence of requests, served one after the other. *)
Fixpoint serve (rt : runtime) (trace : list (env * request)) (s : store) : store :=
  match trace with
  | [] => s
  | (e, r) :: trace' => serve rt trace' (handle rt r e s).2
  end.

(** The requests that are not the seeding. *)
Definition not_seeding (r : request) : bool :=
  match r with
  | SeedSampleDrivers => false
  | _ => true
  end.

(** Every document is filed under its own [_id], and the identifiers in use
    are below the next one to be issued. *)
Definition well_keyed (s : store) : Prop :=
  map_Forall (fun i d => _id d = i /\ (i < nextId s)%N) (drivers s).

(** What [required: true] refuses on a String path. *)
Definition blank (v : value) : bool :=
  match v with
  | VUndefined | VNull => true
  | VString s => String.eqb s ""
  | _ => false
  end.

(** A stored Location the location route can have written. *)
Definition complete (loc : Location) : Prop :=
  is_Some (timestamp loc) /\ is_Some (speed loc) /\ address loc = None
  /\ lat loc <> Some NaN /\ lng loc <> Some NaN
  /\ speed loc <> Some NaN /\ accuracy loc <> Some NaN.

(** The snapshot of a document is the last entry of its history, or the
    schema default when there is none; and every entry is complete. *)
Definition snapshot_follows_history (d : Driver) : Prop :=
  lastLocation d = default lastLocation_default (last (trackingHistory d))
  /\ Forall complete (trackingHistory d).

Definition new_driver_body : gmap string value :=
  {[ "name" := VString "Ana Lopez"; "phone" := VString "+1-555-0105" ]}.

(** A payload with a negative accuracy and a negative speed. *)
Definition negative_body : gmap string value :=
  <["speed" := VNumber (of_Z (-3))]>
    (<["accuracy" := VNumber (of_Z (-1))]> location_body).

Definition null_timestamp : gmap string value :=
  <["timestamp" := VNull]> location_body.

Definition far_timestamp : gmap string value :=
  <["timestamp" := VNumber (of_Z 8640000000000001)]> location_body.

Definition null_speed : gmap string value :=
  <["speed" := VNull]> location_body.

(** What a document keeps through every request that is not the seeding. *)
Definition continues (d d' : Driver) : Prop :=
  trackingHistory d `prefix_of` trackingHistory d'
  /\ name d' = name d /\ phone d' = phone d
  /\ _id d' = _id d /\ createdAt d' = createdAt d.

(** The request is a toggle or a location update that names the document
    [i]. *)
Definition updates (rt : runtime) (r : request) (i : ObjectId) : Prop :=
  match r with
  | ToggleTracking body | SubmitLocation body => addresses rt body i
  | _ => False
  end.

(** The store with the document [i], when there is one, replaced by what
    the change [o] makes of it. *)
Definition replace_document (i : ObjectId) (o : option (Driver -> Driver)) (s : store)
  : store :=
  match o, drivers s !! i with
  | Some f, Some d => with_drivers (<[i := f d]> (drivers s)) s
  | _, _ => s
  end.

Definition john_location : gmap string value :=
  <["driverId" := VString "000000000000000000000000"]> location_body.

(** The store after Maria Garcia's location, sent at 1700000000000 ms and
    received at 3000, was added to [active]. *)
Definition located : store :=
  (handle example_runtime (SubmitLocation location_body) (online 3000) active).2.

Definition maria_located : Driver :=
  let loc := {| lat := Some (Finite 81 (-1)); lng := Some (Finite (-297) (-2));
                timestamp := Some 1700000000000; speed := Some (of_Z 0);
                accuracy := Some (of_Z 5); address := None |} in
  {| _id := 1%N; name := "Maria Garcia"; phone := "+1-555-0102"; isTracking := true;
     lastLocation := loc; trackingHistory := [loc];
     consentGiven := true; consentTimestamp := Some 2000;
     createdAt := 1000; updatedAt := 3000 |}.

Definition busy_trace : list (env * request) :=
  [ (online 2000, ToggleTracking start_body);
    (online 3000, SubmitLocation location_body);
    (online 3500, SubmitLocation no_timestamp);
    (online 4000, CreateDriver new_driver_body);
    (offline 4500, ToggleTracking garbage_body);
    (online 5000, ListDrivers);
    (online 5500, SubmitLocation no_latitude) ].

(** Two requests racing: a location update for Maria Garcia served between
    the two calls of a seeding, then a toggle. *)
Definition racing_calls : list (env * store_call) :=
  [ (online 3000, DeleteMany);
    (online 3001, FindOneAndUpdate maria_id (location_update example_runtime location_body));
    (online 3002, InsertMany sampleDrivers);
    (online 3003, FindOneAndUpdate maria_id (tracking_update (VString "garbage") 3003)) ].

(** * Properties of the handlers *)

Lemma strict_equals_VString v s :
  strict_equals v (VString s) = true <-> v = VString s.
Proof.
  destruct v; simpl; try (split; [discriminate | congruence]).
  rewrite String.eqb_eq. split; congruence.
Qed.

Lemma strict_equals_other v s :
  v <> VString s -> strict_equals v (VString s) = false.
Proof.
  intros Hne. destruct (strict_equals v (VString s)) eqn:E; [|reflexivity].
  apply strict_equals_VString in E. contradiction.
Qed.

(** ** One call of [findOneAndUpdate] *)

Section FindOneAndUpdate.
Context (rt : runtime) (id : value) (u : update) (e : env) (s : store).

Lemma findOneAndUpdate_found i f d :
  castObjectId rt id = Return (Some i) ->
  castUpdate rt u = Return f ->
  connected e = true ->
  drivers s !! i = Some d ->
  Driver_findOneAndUpdate rt id u e s =
    (Return (Some (touch (clock e) (f d))),
     with_drivers (<[i := touch (clock e) (f d)]> (drivers s)) s).
Proof.
  intros Hid Hu Hc Hd.
  unfold Driver_findOneAndUpdate, bind, lift, on_store.
  rewrite Hid, Hu, Hc, Hd. reflexivity.
Qed.

Lemma findOneAndUpdate_no_match q f :
  castObjectId rt id = Return q ->
  castUpdate rt u = Return f ->
  connected e = true ->
  (forall i, q = Some i -> drivers s !! i = None) ->
  Driver_findOneAndUpdate rt id u e s = (Return None, s).
Proof.
  intros Hid Hu Hc Hq.
  unfold Driver_findOneAndUpdate, bind, lift, on_store.
  rewrite Hid, Hu, Hc. destruct q as [i|]; [|reflexivity].
  rewrite (Hq i eq_refl). reflexivity.
Qed.

Lemma findOneAndUpdate_bad_id err :
  castObjectId rt id = Throw err ->
  Driver_findOneAndUpdate rt id u e s = (Throw err, s).
Proof.
  intros Hid. unfold Driver_findOneAndUpdate, bind, lift. rewrite Hid. reflexivity.
Qed.

Lemma findOneAndUpdate_bad_update err :
  castUpdate rt u = Throw err ->
  exists err', Driver_findOneAndUpdate rt id u e s = (Throw err', s).
Proof.
  intros Hu. unfold Driver_findOneAndUpdate, bind, lift. rewrite Hu.
  destruct (castObjectId rt id); eauto.
Qed.

Lemma findOneAndUpdate_offline :
  connected e = false ->
  exists err, Driver_findOneAndUpdate rt id u e s = (Throw err, s).
Proof.
  intros Hc. unfold Driver_findOneAndUpdate, bind, lift, on_store. rewrite Hc.
  destruct (castObjectId rt id); [|eauto].
  destruct (castUpdate rt u); eauto.
Qed.

(** Whatever the call returns, the store is untouched or exactly one
    document, the matched one, has been replaced by its update. *)
Lemma findOneAndUpdate_cases :
  (exists err, Driver_findOneAndUpdate rt id u e s = (Throw err, s))
  \/ Driver_findOneAndUpdate rt id u e s = (Return None, s)
  \/ (exists i f d,
        castObjectId rt id = Return (Some i) /\ castUpdate rt u = Return f /\
        connected e = true /\ drivers s !! i = Some d /\
        Driver_findOneAndUpdate rt id u e s =
          (Return (Some (touch (clock e) (f d))),
           with_drivers (<[i := touch (clock e) (f d)]> (drivers s)) s)).
Proof.
  destruct (castObjectId rt id) as [q|err] eqn:Hid;
    [|left; eauto using findOneAndUpdate_bad_id].
  destruct (castUpdate rt u) as [f|err] eqn:Hu;
    [|left; eauto using findOneAndUpdate_bad_update].
  destruct (connected e) eqn:Hc;
    [|left; eauto using findOneAndUpdate_offline].
  destruct q as [i|].
  - destruct (drivers s !! i) as [d|] eqn:Hd.
    + right; right. exists i, f, d. eauto 10 using findOneAndUpdate_found.
    + right; left. eapply findOneAndUpdate_no_match; eauto. congruence.
  - right; left. eapply findOneAndUpdate_no_match; eauto. discriminate.
Qed.
End FindOneAndUpdate.

(** ** The tracking toggle *)

Lemma castUpdate_tracking rt action now :
  castUpdate rt (tracking_update action now) =
    Return (set_tracking
              (strict_equals action (VString "start_tracking"))
              (strict_equals action (VString "start_tracking"))
              (if strict_equals action (VString "start_tracking")
               then Some now else None)).
Proof.
  unfold tracking_update.
  destruct (strict_equals action (VString "start_tracking")); reflexivity.
Qed.

Lemma tracking_unfold rt body e s :
  post_api_driver_tracking rt body e s =
    match Driver_findOneAndUpdate rt (prop body "driverId")
            (tracking_update (prop body "action") (clock e)) e s with
    | (Return None, s') => (Return {| status := 404; json := DriverNotFound |}, s')
    | (Return (Some d), s') => (Return {| status := 200; json := SuccessDriver d |}, s')
    | (Throw err, s') => (Return {| status := 500; json := ErrorMessage err |}, s')
    end.
Proof.
  unfold post_api_driver_tracking, try_catch, bind, Date_now, tracking_update.
  destruct (Driver_findOneAndUpdate _ _ _ e s) as [[[d|]|err] s']; reflexivity.
Qed.

(** The document a stop command leaves behind. *)
Lemma tracking_applied rt body e s i d :
  connected e = true ->
  addresses rt body i ->
  drivers s !! i = Some d ->
  let t := strict_equals (prop body "action") (VString "start_tracking") in
  let d' := touch (clock e) (set_tracking t t (if t then Some (clock e) else None) d) in
  post_api_driver_tracking rt body e s =
    (Return {| status := 200; json := SuccessDriver d' |},
     with_drivers (<[i := d']> (drivers s)) s).
Proof.
  intros Hc Hid Hd t d'. rewrite tracking_unfold.
  erewrite findOneAndUpdate_found; eauto using castUpdate_tracking.
Qed.

(** C1. Fail-safe stop: for an existing driver, every action other than the
    exact string 'start_tracking' (another string, the empty string, a number,
    null, a missing action) is answered with the updated driver, which is
    stored with isTracking = false. *)
Theorem tracking_fail_safe_stop rt body e s i d :
  connected e = true ->
  addresses rt body i ->
  drivers s !! i = Some d ->
  prop body "action" <> VString "start_tracking" ->
  exists d' s',
    post_api_driver_tracking rt body e s =
      (Return {| status := 200; json := SuccessDriver d' |}, s')
    /\ drivers s' !! i = Some d'
    /\ isTracking d' = false.
Proof.
  intros Hc Hid Hd Hne.
  pose proof (tracking_applied rt body e s i d Hc Hid Hd) as H. cbv zeta in H.
  rewrite (strict_equals_other _ _ Hne) in H.
  eexists _, _. split; [exact H|]. split; [|reflexivity].
  simpl. apply lookup_insert_eq.
Qed.

(** C7. A stop command (any action other than 'start_tracking') on an
    existing driver clears consentGiven and consentTimestamp and leaves
    trackingHistory, lastLocation, name and phone (and the identifier and the
    creation time) as they were; no other document is touched. Of the
    document's other paths only [updatedAt], the stamp Mongoose keeps, moves. *)
Theorem tracking_stop_frame rt body e s i d :
  connected e = true ->
  addresses rt body i ->
  drivers s !! i = Some d ->
  prop body "action" <> VString "start_tracking" ->
  exists d',
    post_api_driver_tracking rt body e s =
      (Return {| status := 200; json := SuccessDriver d' |},
       with_drivers (<[i := d']> (drivers s)) s)
    /\ consentGiven d' = false
    /\ consentTimestamp d' = None
    /\ trackingHistory d' = trackingHistory d
    /\ lastLocation d' = lastLocation d
    /\ name d' = name d
    /\ phone d' = phone d
    /\ _id d' = _id d
    /\ createdAt d' = createdAt d.
Proof.
  intros Hc Hid Hd Hne.
  pose proof (tracking_applied rt body e s i d Hc Hid Hd) as H. cbv zeta in H.
  rewrite (strict_equals_other _ _ Hne) in H.
  eexists. split; [exact H|]. repeat split.
Qed.

(** ** Location updates *)

Lemma castNumber_not_castable rt path v :
  not_castable_to_number rt v = true ->
  castNumber rt path v = Throw (CastError "Number" path).
Proof.
  destruct v as [| |b|n|str]; simpl; try discriminate.
  - intros ->. reflexivity.
  - destruct (String.eqb str ""); simpl; [discriminate|]. intros ->. reflexivity.
Qed.

Lemma castNumber_castable rt v :
  not_castable_to_number rt v = false ->
  exists x, forall path', castNumber rt path' v = Return x.
Proof.
  destruct v as [| |b|n|str]; simpl; eauto.
  - intros ->. eauto.
  - destruct (String.eqb str ""); simpl; [eauto|]. intros ->. eauto.
Qed.

Lemma castNumber_path rt path path' v x :
  castNumber rt path v = Return x -> castNumber rt path' v = Return x.
Proof.
  destruct (not_castable_to_number rt v) eqn:E.
  - rewrite (castNumber_not_castable _ _ _ E). discriminate.
  - destruct (castNumber_castable rt v E) as [y Hy].
    rewrite !Hy. auto.
Qed.

Lemma castDate_path path path' d x :
  castDate path d = Return x -> castDate path' d = Return x.
Proof. destruct d; simpl; [discriminate | auto]. Qed.

Lemma obind_Return {A B} (o : outcome A) (k : A -> outcome B) b :
  obind o k = Return b -> exists a, o = Return a /\ k a = Return b.
Proof. destruct o; simpl; [eauto | discriminate]. Qed.

Lemma castLocation_path rt path path' l loc :
  castLocation rt path l = Return loc -> castLocation rt path' l = Return loc.
Proof.
  unfold castLocation. intros H.
  apply obind_Return in H as (sp & Hsp & H).
  apply obind_Return in H as (ts & Hts & H).
  apply obind_Return in H as (ac & Hac & H).
  apply obind_Return in H as (ln & Hln & H).
  apply obind_Return in H as (la & Hla & H).
  rewrite (castNumber_path _ _ (path' +:+ ".speed") _ _ Hsp); simpl.
  rewrite (castDate_path _ (path' +:+ ".timestamp") _ _ Hts); simpl.
  rewrite (castNumber_path _ _ (path' +:+ ".accuracy") _ _ Hac); simpl.
  rewrite (castNumber_path _ _ (path' +:+ ".lng") _ _ Hln); simpl.
  rewrite (castNumber_path _ _ (path' +:+ ".lat") _ _ Hla); simpl.
  exact H.
Qed.

Lemma castUpdate_location_ok rt body loc :
  normalized rt body = Return loc ->
  castUpdate rt (location_update rt body) = Return (set_location_and_push loc loc).
Proof.
  intros H. unfold location_update. simpl. unfold normalized in H.
  rewrite H. simpl.
  rewrite (castLocation_path _ _ "trackingHistory" _ _ H). reflexivity.
Qed.

Lemma castUpdate_location_fails rt body err :
  normalized rt body = Throw err ->
  castUpdate rt (location_update rt body) = Throw err.
Proof.
  intros H. unfold location_update. simpl. unfold normalized in H.
  rewrite H. reflexivity.
Qed.

Lemma location_unfold rt body e s :
  post_api_driver_location rt body e s =
    match Driver_findOneAndUpdate rt (prop body "driverId")
            (location_update rt body) e s with
    | (Return None, s') => (Return {| status := 404; json := DriverNotFound |}, s')
    | (Return (Some d), s') => (Return {| status := 200; json := Success |}, s')
    | (Throw err, s') => (Return {| status := 500; json := ErrorMessage err |}, s')
    end.
Proof.
  unfold post_api_driver_location, try_catch, bind, location_update, location_fields.
  destruct (Driver_findOneAndUpdate _ _ _ e s) as [[[d|]|err] s']; reflexivity.
Qed.

(** A payload that does not pass the casts is answered with status 500 and
    changes nothing, whether or not the driver exists. *)
Lemma location_rejected rt body e s err :
  normalized rt body = Throw err ->
  exists err',
    post_api_driver_location rt body e s =
      (Return {| status := 500; json := ErrorMessage err' |}, s).
Proof.
  intros H. rewrite location_unfold.
  destruct (findOneAndUpdate_bad_update rt (prop body "driverId")
              (location_update rt body) e s err) as [err' ->];
    eauto using castUpdate_location_fails.
Qed.

(** A payload that passes the casts, for an existing driver: the snapshot
    and the history entry are written by the one update. *)
Lemma location_applied rt body e s i d loc :
  connected e = true ->
  addresses rt body i ->
  drivers s !! i = Some d ->
  normalized rt body = Return loc ->
  post_api_driver_location rt body e s =
    (Return {| status := 200; json := Success |},
     with_drivers
       (<[i := touch (clock e) (set_location_and_push loc loc d)]> (drivers s)) s).
Proof.
  intros Hc Hid Hd Hloc. rewrite location_unfold.
  erewrite findOneAndUpdate_found; eauto using castUpdate_location_ok.
Qed.

(** The response tells what happened to the store. *)
Lemma location_cases rt body e s :
  (exists err,
     post_api_driver_location rt body e s =
       (Return {| status := 500; json := ErrorMessage err |}, s))
  \/ post_api_driver_location rt body e s =
       (Return {| status := 404; json := DriverNotFound |}, s)
  \/ (exists i d loc,
        connected e = true /\ addresses rt body i /\ drivers s !! i = Some d /\
        normalized rt body = Return loc /\
        post_api_driver_location rt body e s =
          (Return {| status := 200; json := Success |},
           with_drivers
             (<[i := touch (clock e) (set_location_and_push loc loc d)]> (drivers s)) s)).
Proof.
  destruct (normalized rt body) as [loc|err] eqn:Hloc;
    [|left; eauto using location_rejected].
  rewrite location_unfold.
  destruct (findOneAndUpdate_cases rt (prop body "driverId")
              (location_update rt body) e s)
    as [[err H] | [H | (i & f & d & Hid & Hu & Hc & Hd & H)]]; rewrite H.
  - left. eauto.
  - right; left. reflexivity.
  - right; right. exists i, d, loc.
    rewrite (castUpdate_location_ok _ _ _ Hloc) in Hu. injection Hu as <-.
    auto 10.
Qed.

Lemma normalized_inv rt body loc :
  normalized rt body = Return loc ->
  exists la ln ac ts sp,
    castNumber rt "lastLocation.lat" (prop body "latitude") = Return la /\
    castNumber rt "lastLocation.lng" (prop body "longitude") = Return ln /\
    castNumber rt "lastLocation.accuracy" (prop body "accuracy") = Return ac /\
    new_Date rt (prop body "timestamp") = DateValue ts /\
    castNumber rt "lastLocation.speed"
      (or_else (prop body "speed") (VNumber (of_Z 0))) = Return sp /\
    loc = {| lat := la; lng := ln; timestamp := Some ts; speed := sp;
             accuracy := ac; address := None |}.
Proof.
  unfold normalized, castLocation, location_fields. simpl. intros H.
  apply obind_Return in H as (sp & Hsp & H).
  apply obind_Return in H as (ts & Hts & H).
  apply obind_Return in H as (ac & Hac & H).
  apply obind_Return in H as (ln & Hln & H).
  apply obind_Return in H as (la & Hla & H).
  destruct (new_Date rt (prop body "timestamp")) as [|ms] eqn:Hd;
    simpl in Hts; [discriminate|].
  injection Hts as <-. injection H as <-.
  exists la, ln, ac, ms, sp. auto 10.
Qed.

(** [speed || 0]: a missing speed is stored as 0. *)
Lemma normalized_speed_default rt body loc :
  prop body "speed" = VUndefined ->
  normalized rt body = Return loc ->
  speed loc = Some (of_Z 0).
Proof.
  intros Hs H. apply normalized_inv in H as (la & ln & ac & ts & sp & _ & _ & _ & _ & Hsp & ->).
  rewrite Hs in Hsp. simpl in Hsp. injection Hsp as <-. reflexivity.
Qed.

Lemma non_negative_not_NaN n : non_negative n = true -> isNaN n = false.
Proof. destruct n; simpl; [discriminate | auto | auto]. Qed.

Lemma castNumber_numeric rt path v :
  numeric v = true -> exists n, v = VNumber n /\ castNumber rt path v = Return (Some n).
Proof.
  destruct v as [| |b|n|str]; simpl; try discriminate.
  intros H. apply negb_true_iff in H. exists n. rewrite H. auto.
Qed.

Lemma castNumber_absent_or_non_negative rt path v :
  absent_or_non_negative v = true -> exists x, castNumber rt path v = Return x.
Proof.
  destruct v as [| |b|n|str]; simpl; try discriminate; eauto.
  intros H. rewrite (non_negative_not_NaN _ H). eauto.
Qed.

Lemma castNumber_speed rt path v :
  absent_or_non_negative v = true ->
  exists x, castNumber rt path (or_else v (VNumber (of_Z 0))) = Return x.
Proof.
  intros H. unfold or_else. destruct (ToBoolean v).
  - eauto using castNumber_absent_or_non_negative.
  - simpl. eauto.
Qed.

Lemma timestamp_by_spec_present rt now v :
  v <> VUndefined ->
  absent_or_valid_date rt v = true ->
  exists ts, new_Date rt v = DateValue ts /\ timestamp_by_spec rt now v = Some ts.
Proof.
  intros Hv H.
  assert (is_valid_date (new_Date rt v) = true) as Hd
    by (destruct v; [contradiction | exact H..]).
  assert (timestamp_by_spec rt now v =
            match new_Date rt v with
            | DateValue t => Some t
            | InvalidDate => None
            end) as Hs
    by (destruct v; [contradiction | reflexivity..]).
  destruct (new_Date rt v) as [|ts]; [discriminate|]. eauto.
Qed.

(** A payload that is valid in the spec's sense and carries a timestamp
    passes the casts, and what they give is the spec's normalized Location. *)
Lemma valid_payload_normalized rt now body :
  valid_payload rt body = true ->
  prop body "timestamp" <> VUndefined ->
  normalized rt body = Return (normalized_by_spec rt now body).
Proof.
  unfold valid_payload. rewrite !andb_true_iff.
  intros [[[[Hla Hln] Hac] Hsp] Hts] Hpresent.
  assert (exists ts, new_Date rt (prop body "timestamp") = DateValue ts
                     /\ timestamp_by_spec rt now (prop body "timestamp") = Some ts)
    as (ts & Ets & Espec).
  { apply timestamp_by_spec_present; assumption. }
  unfold normalized, castLocation, location_fields, normalized_by_spec, or_else.
  cbn [lit_lat lit_lng lit_accuracy lit_timestamp lit_speed].
  rewrite Ets, Espec.
  destruct (prop body "latitude") as [| | |a|]; try discriminate Hla.
  destruct (prop body "longitude") as [| | |b|]; try discriminate Hln.
  simpl in Hla, Hln. apply negb_true_iff in Hla, Hln.
  destruct (prop body "accuracy") as [| | |c|]; try discriminate Hac;
    destruct (prop body "speed") as [| | |v|]; try discriminate Hsp;
    simpl in Hac, Hsp; simpl;
    rewrite ?(non_negative_not_NaN _ Hac), ?(non_negative_not_NaN _ Hsp), ?Hla, ?Hln;
    simpl; try reflexivity;
    destruct (is_zero v); simpl;
    rewrite ?(non_negative_not_NaN _ Hsp), ?Hla, ?Hln; reflexivity.
Qed.


(** C3 (as amended). A latitude or longitude that Mongoose cannot cast to a
    number (NaN, or a non-empty string that does not read as a number) makes
    the update fail: the answer is status 500 with the error and the store is
    unchanged, so no history entry is appended and no snapshot overwritten. A
    latitude or longitude that is missing is not refused: when the rest of the
    payload passes the casts the update is applied and the coordinate is
    stored unset. *)
Theorem location_coordinate_casts rt body e s :
  (not_castable_to_number rt (prop body "latitude") = true \/
   not_castable_to_number rt (prop body "longitude") = true ->
   exists err,
     post_api_driver_location rt body e s =
       (Return {| status := 500; json := ErrorMessage err |}, s))
  /\
  (forall i d loc,
     connected e = true -> addresses rt body i -> drivers s !! i = Some d ->
     normalized rt body = Return loc ->
     post_api_driver_location rt body e s =
       (Return {| status := 200; json := Success |},
        with_drivers
          (<[i := touch (clock e) (set_location_and_push loc loc d)]> (drivers s)) s)
     /\ (prop body "latitude" = VUndefined -> lat loc = None)
     /\ (prop body "longitude" = VUndefined -> lng loc = None)).
Proof.
  split.
  - intros H.
    assert (exists err, normalized rt body = Throw err) as [err Herr].
    { destruct (normalized rt body) as [loc|err] eqn:Hn; [|eauto].
      apply normalized_inv in Hn
        as (la & ln & ac & ts & sp & Hla & Hln & _ & _ & _ & _).
      destruct H as [H|H].
      - rewrite (castNumber_not_castable _ _ _ H) in Hla. discriminate.
      - rewrite (castNumber_not_castable _ _ _ H) in Hln. discriminate. }
    eauto using location_rejected.
  - intros i d loc Hc Hid Hd Hloc. split; [eauto using location_applied|].
    apply normalized_inv in Hloc
      as (la & ln & ac & ts & sp & Hla & Hln & _ & _ & _ & ->).
    split; intros Hu; rewrite Hu in *; simpl in *; congruence.
Qed.

(** C4 (as amended). A timestamp that is missing, or that is a string the
    engine does not parse, makes the update fail: the answer is status 500
    with the error and nothing is stored. The server's clock is not
    substituted. *)
Theorem location_timestamp_casts rt body e s :
  prop body "timestamp" = VUndefined \/
  (exists str, prop body "timestamp" = VString str /\ Date_parse rt str = InvalidDate) ->
  exists err,
    post_api_driver_location rt body e s =
      (Return {| status := 500; json := ErrorMessage err |}, s).
Proof.
  intros H.
  assert (new_Date rt (prop body "timestamp") = InvalidDate) as Hd.
  { destruct H as [-> | (str & -> & H)]; [reflexivity | exact H]. }
  assert (exists err, normalized rt body = Throw err) as [err Herr].
  { destruct (normalized rt body) as [loc|err] eqn:Hn; [|eauto].
    apply normalized_inv in Hn as (la & ln & ac & ts & sp & _ & _ & _ & Hts & _ & _).
    rewrite Hd in Hts. discriminate. }
  eauto using location_rejected.
Qed.

(** C5 (as amended). A toggle or a location update whose driverId no
    document has leaves the store as it was: no document is created, and the
    listing afterwards is the listing before. The answer is 404 'Driver not
    found' when the driverId casts to an ObjectId (or is null or missing) and,
    for a location update, the payload passes the casts; a driverId that does
    not cast to an ObjectId, or a location payload that fails a cast, is
    answered with status 500 and the error instead. *)
Theorem unknown_driver_not_created rt body e s :
  connected e = true ->
  (forall i, addresses rt body i -> drivers s !! i = None) ->
  (exists r,
     post_api_driver_tracking rt body e s = (Return r, s)
     /\ match castObjectId rt (prop body "driverId") with
        | Return _ => r = {| status := 404; json := DriverNotFound |}
        | Throw err => r = {| status := 500; json := ErrorMessage err |}
        end)
  /\ (exists r,
        post_api_driver_location rt body e s = (Return r, s)
        /\ match castObjectId rt (prop body "driverId"), normalized rt body with
           | Return _, Return _ => r = {| status := 404; json := DriverNotFound |}
           | _, _ => exists err, r = {| status := 500; json := ErrorMessage err |}
           end)
  /\ (forall e',
        get_api_drivers e' (post_api_driver_tracking rt body e s).2 = get_api_drivers e' s
        /\ get_api_drivers e' (post_api_driver_location rt body e s).2 = get_api_drivers e' s).
Proof.
  intros Hc Hnone.
  assert (exists r,
            post_api_driver_tracking rt body e s = (Return r, s)
            /\ match castObjectId rt (prop body "driverId") with
               | Return _ => r = {| status := 404; json := DriverNotFound |}
               | Throw err => r = {| status := 500; json := ErrorMessage err |}
               end) as Ht.
  { rewrite tracking_unfold.
    destruct (castObjectId rt (prop body "driverId")) as [q|err] eqn:Hid.
    - erewrite findOneAndUpdate_no_match; eauto using castUpdate_tracking.
      intros i ->. apply Hnone. exact Hid.
    - erewrite findOneAndUpdate_bad_id; eauto. }
  assert (exists r,
            post_api_driver_location rt body e s = (Return r, s)
            /\ match castObjectId rt (prop body "driverId"), normalized rt body with
               | Return _, Return _ => r = {| status := 404; json := DriverNotFound |}
               | _, _ => exists err, r = {| status := 500; json := ErrorMessage err |}
               end) as Hl.
  { rewrite location_unfold.
    destruct (castObjectId rt (prop body "driverId")) as [q|err] eqn:Hid.
    - destruct (normalized rt body) as [loc|err] eqn:Hloc.
      + erewrite findOneAndUpdate_no_match; eauto using castUpdate_location_ok.
        intros i ->. apply Hnone. exact Hid.
      + destruct (findOneAndUpdate_bad_update rt (prop body "driverId")
                    (location_update rt body) e s err) as [err' ->];
          eauto using castUpdate_location_fails.
    - erewrite findOneAndUpdate_bad_id; eauto. }
  split; [exact Ht|]. split; [exact Hl|].
  destruct Ht as (r1 & -> & _). destruct Hl as (r2 & -> & _). auto.
Qed.

(** C10 (as amended). A valid payload that carries a timestamp, for an
    existing driver, is accepted whatever the driver's isTracking is, and the
    update writes lastLocation and appends to trackingHistory only, both the
    spec's normalized Location: isTracking, consentGiven, consentTimestamp,
    name and phone (and the identifier and the creation time) are as before.
    Of the document's other paths only [updatedAt], the stamp Mongoose keeps,
    moves. *)
Theorem location_accepted_without_gate rt body e s i d :
  connected e = true ->
  addresses rt body i ->
  drivers s !! i = Some d ->
  valid_payload rt body = true ->
  prop body "timestamp" <> VUndefined ->
  exists d',
    post_api_driver_location rt body e s =
      (Return {| status := 200; json := Success |},
       with_drivers (<[i := d']> (drivers s)) s)
    /\ lastLocation d' = normalized_by_spec rt (clock e) body
    /\ trackingHistory d' = trackingHistory d ++ [normalized_by_spec rt (clock e) body]
    /\ isTracking d' = isTracking d
    /\ consentGiven d' = consentGiven d
    /\ consentTimestamp d' = consentTimestamp d
    /\ name d' = name d
    /\ phone d' = phone d
    /\ _id d' = _id d
    /\ createdAt d' = createdAt d.
Proof.
  intros Hc Hid Hd Hv Hts.
  pose proof (valid_payload_normalized rt (clock e) body Hv Hts) as Hloc.
  eexists. split; [eauto using location_applied|].
  repeat split.
Qed.

(** ** The listing *)

#[global] Instance newer_first_total : Total newer_first.
Proof. intros a b. unfold newer_first. lia. Qed.

#[global] Instance newer_first_trans : Transitive newer_first.
Proof. intros a b c. unfold newer_first. lia. Qed.

Lemma get_api_drivers_unfold e s :
  get_api_drivers e s =
    (Return {| status := 200;
               json := if connected e
                       then DriverList (merge_sort newer_first (map_to_list (drivers s)).*2)
                       else MockList mock_drivers |}, s).
Proof.
  unfold get_api_drivers, try_catch, bind, Driver_find_sort_createdAt_desc, on_store.
  destruct (connected e); reflexivity.
Qed.

(** C9. The listing always answers with status 200 and never changes the
    store. With the store reachable it returns all the documents, each once,
    newest createdAt first; with the store unreachable it returns the two
    fixed placeholder drivers. *)
Theorem listing_never_fails e s :
  exists r,
    get_api_drivers e s = (Return r, s)
    /\ status r = 200%nat
    /\ if connected e
       then exists l, json r = DriverList l
                      /\ l ≡ₚ (map_to_list (drivers s)).*2
                      /\ StronglySorted newer_first l
       else json r = MockList mock_drivers /\ length mock_drivers = 2%nat.
Proof.
  rewrite get_api_drivers_unfold. eexists. split; [reflexivity|].
  split; [reflexivity|]. simpl. destruct (connected e).
  - eexists. split; [reflexivity|]. split.
    + apply merge_sort_Permutation.
    + apply StronglySorted_merge_sort; apply _.
  - split; reflexivity.
Qed.

(** ** Seeding *)

Lemma validate_all_sampleDrivers :
  validate_all sampleDrivers =
    Return [ ("John Smith", "+1-555-0101"); ("Maria Garcia", "+1-555-0102");
             ("David Johnson", "+1-555-0103"); ("Sarah Williams", "+1-555-0104") ].
Proof. reflexivity. Qed.

Lemma init_drivers_online e s :
  connected e = true ->
  post_api_init_drivers e s =
    (Return {| status := 200; json := SuccessCount 4 |},
     {| drivers := collection_of (sample_documents (nextId s) (clock e));
        nextId := N.succ (N.succ (N.succ (N.succ (nextId s)))) |}).
Proof.
  intros Hc.
  cbv [post_api_init_drivers try_catch bind Driver_deleteMany
         Driver_insertMany on_store lift].
  rewrite Hc, validate_all_sampleDrivers. reflexivity.
Qed.

Lemma init_drivers_offline e s :
  connected e = false ->
  post_api_init_drivers e s =
    (Return {| status := 500; json := ErrorMessage MongoError |}, s).
Proof.
  intros Hc.
  unfold post_api_init_drivers, try_catch, bind, Driver_deleteMany, on_store.
  rewrite Hc. reflexivity.
Qed.

Lemma sample_documents_listed first now :
  map_to_list (collection_of (sample_documents first now))
    ≡ₚ (fun d => (_id d, d)) <$> sample_documents first now.
Proof.
  unfold collection_of, sample_documents. simpl.
  rewrite !map_to_list_insert, map_to_list_empty.
  - symmetry. exact (Permutation_rev [_; _; _; _]).
  - apply lookup_empty.
  - rewrite lookup_insert_ne by lia. apply lookup_empty.
  - rewrite !lookup_insert_ne by lia. apply lookup_empty.
  - rewrite !lookup_insert_ne by lia. apply lookup_empty.
Qed.

(** C8. With the store reachable, POST /api/init-drivers empties the
    collection and inserts the sample roster: whatever documents there were
    before, afterwards the collection holds exactly the four documents made
    from [sampleDrivers], and the answer carries their count. *)
Theorem seed_replaces_collection e s :
  connected e = true ->
  exists s',
    post_api_init_drivers e s =
      (Return {| status := 200; json := SuccessCount (length sampleDrivers) |}, s')
    /\ (map_to_list (drivers s')).*2 ≡ₚ sample_documents (nextId s) (clock e)
    /\ (fun d => {| draft_name := Some (name d); draft_phone := Some (phone d) |})
         <$> sample_documents (nextId s) (clock e) = sampleDrivers
    /\ size (drivers s') = 4%nat.
Proof.
  intros Hc. eexists. split; [apply (init_drivers_online e s Hc)|].
  simpl drivers.
  assert ((map_to_list (collection_of (sample_documents (nextId s) (clock e)))).*2
            ≡ₚ sample_documents (nextId s) (clock e)) as Hp.
  { rewrite sample_documents_listed. reflexivity. }
  split; [exact Hp|]. split; [reflexivity|].
  rewrite <- length_map_to_list.
  rewrite <- (length_fmap snd). rewrite Hp. reflexivity.
Qed.

(** ** Consent *)

Lemma consent_recorded_new id nm ph now : consent_recorded (Driver_document id nm ph now).
Proof. unfold consent_recorded. simpl. discriminate. Qed.

Lemma consent_recorded_tracking action now now' d :
  consent_recorded
    (touch now'
       (set_tracking
          (strict_equals action (VString "start_tracking"))
          (strict_equals action (VString "start_tracking"))
          (if strict_equals action (VString "start_tracking")
           then Some now else None) d)).
Proof.
  unfold consent_recorded.
  destruct (strict_equals action (VString "start_tracking")); simpl.
  - intros _. split; [reflexivity | discriminate].
  - discriminate.
Qed.

Lemma consent_recorded_location now l p d :
  consent_recorded d -> consent_recorded (touch now (set_location_and_push l p d)).
Proof. unfold consent_recorded. simpl. auto. Qed.

Lemma tracking_preserves_consent rt body e s :
  all_consent_recorded s ->
  all_consent_recorded (post_api_driver_tracking rt body e s).2.
Proof.
  intros Hs. rewrite tracking_unfold.
  destruct (findOneAndUpdate_cases rt (prop body "driverId")
              (tracking_update (prop body "action") (clock e)) e s)
    as [[err H] | [H | (i & f & d & _ & Hu & _ & _ & H)]]; rewrite H; simpl; auto.
  rewrite castUpdate_tracking in Hu. injection Hu as <-.
  apply map_Forall_insert_2; [apply consent_recorded_tracking | exact Hs].
Qed.

Lemma location_preserves_consent rt body e s :
  all_consent_recorded s ->
  all_consent_recorded (post_api_driver_location rt body e s).2.
Proof.
  intros Hs.
  destruct (location_cases rt body e s)
    as [[err H] | [H | (i & d & loc & _ & _ & Hd & _ & H)]]; rewrite H; simpl; auto.
  apply map_Forall_insert_2; [|exact Hs].
  apply consent_recorded_location. exact (Hs i d Hd).
Qed.

Lemma create_preserves_consent rt body e s :
  all_consent_recorded s ->
  all_consent_recorded (post_api_drivers rt body e s).2.
Proof.
  intros Hs.
  cbv [post_api_drivers try_catch bind Driver_save on_store lift].
  destruct (validate _) as [np|err]; simpl; [|exact Hs].
  destruct (connected e); simpl; [|exact Hs].
  apply map_Forall_insert_2; [apply consent_recorded_new | exact Hs].
Qed.

Lemma seed_preserves_consent e s :
  all_consent_recorded s ->
  all_consent_recorded (post_api_init_drivers e s).2.
Proof.
  intros Hs. destruct (connected e) eqn:Hc.
  - rewrite (init_drivers_online e s Hc). unfold all_consent_recorded. simpl.
    unfold collection_of. simpl.
    repeat (apply map_Forall_insert_2; [apply consent_recorded_new|]).
    apply map_Forall_empty.
  - rewrite (init_drivers_offline e s Hc). exact Hs.
Qed.

Lemma handle_preserves_consent rt r e s :
  all_consent_recorded s -> all_consent_recorded (handle rt r e s).2.
Proof.
  destruct r; simpl.
  - rewrite get_api_drivers_unfold. auto.
  - apply create_preserves_consent.
  - apply tracking_preserves_consent.
  - apply location_preserves_consent.
  - apply seed_preserves_consent.
Qed.

Lemma reachable_consent rt s : reachable rt s -> all_consent_recorded s.
Proof.
  induction 1 as [n | s e r _ IH].
  - apply map_Forall_empty.
  - apply handle_preserves_consent, IH.
Qed.

(** C2. In every store the server reaches from an empty collection by
    creating and seeding drivers, toggling tracking and ingesting locations
    (in any order, succeeding or failing), a driver with isTracking = true has
    consentGiven = true and a consentTimestamp that is set. *)
Theorem tracking_implies_consent rt s i d :
  reachable rt s ->
  drivers s !! i = Some d ->
  isTracking d = true ->
  consentGiven d = true /\ consentTimestamp d <> None.
Proof.
  intros Hr Hd. exact (reachable_consent rt s Hr i d Hd).
Qed.

(** ** Runs of location updates *)


Lemma location_accepted_inv rt body e s i d :
  addresses rt body i ->
  drivers s !! i = Some d ->
  (post_api_driver_location rt body e s).1 = accepted ->
  exists loc,
    normalized rt body = Return loc /\
    (post_api_driver_location rt body e s).2 =
      with_drivers
        (<[i := touch (clock e) (set_location_and_push loc loc d)]> (drivers s)) s.
Proof.
  intros Hid Hd.
  destruct (location_cases rt body e s)
    as [[err H] | [H | (i' & d' & loc & _ & Hid' & Hd' & Hloc & H)]];
    rewrite H; simpl; try discriminate.
  intros _. unfold addresses in *. rewrite Hid in Hid'. injection Hid' as <-.
  rewrite Hd in Hd'. injection Hd' as <-. eauto.
Qed.



(** Whatever a location update does to a document, the snapshot and the
    history change together or not at all. *)
Lemma location_snapshot_with_append rt body e s j d :
  drivers s !! j = Some d ->
  exists d',
    drivers (post_api_driver_location rt body e s).2 !! j = Some d'
    /\ ((lastLocation d' = lastLocation d /\ trackingHistory d' = trackingHistory d)
        \/ trackingHistory d' = trackingHistory d ++ [lastLocation d']).
Proof.
  intros Hd.
  destruct (location_cases rt body e s)
    as [[err H] | [H | (i & d0 & loc & _ & _ & Hd0 & _ & H)]];
    rewrite H; simpl; eauto.
  destruct (decide (i = j)) as [->|Hne].
  - rewrite lookup_insert_eq. rewrite Hd in Hd0. injection Hd0 as <-.
    eexists. split; [reflexivity|]. right. reflexivity.
  - rewrite lookup_insert_ne by exact Hne. eauto.
Qed.


(** ** The routes at concrete requests *)

Example seed_then_list :
  (get_api_drivers (online 1500) seeded).1 =
    Return {| status := 200;
              json := DriverList
                        [ Driver_document 2%N "David Johnson" "+1-555-0103" 1000;
                          Driver_document 3%N "Sarah Williams" "+1-555-0104" 1000;
                          Driver_document 1%N "Maria Garcia" "+1-555-0102" 1000;
                          Driver_document 0%N "John Smith" "+1-555-0101" 1000 ] |}.
Proof. vm_compute. reflexivity. Qed.

Example list_offline :
  get_api_drivers (offline 1500) seeded =
    (Return {| status := 200; json := MockList mock_drivers |}, seeded).
Proof. vm_compute. reflexivity. Qed.

Example start_tracking_stamps_consent :
  drivers active !! 1%N = Some maria_active.
Proof. vm_compute. reflexivity. Qed.

(** Starting twice keeps the driver tracking and stamps the consent again. *)
Example start_twice :
  (post_api_driver_tracking example_runtime start_body (online 2500) active).1 =
    Return {| status := 200;
              json := SuccessDriver
                        {| _id := 1%N; name := "Maria Garcia"; phone := "+1-555-0102";
                           isTracking := true; lastLocation := lastLocation_default;
                           trackingHistory := []; consentGiven := true;
                           consentTimestamp := Some 2500;
                           createdAt := 1000; updatedAt := 2500 |} |}.
Proof. vm_compute. reflexivity. Qed.

Example toggle_offline :
  post_api_driver_tracking example_runtime garbage_body (offline 2500) active =
    (Return {| status := 500; json := ErrorMessage MongoError |}, active).
Proof. vm_compute. reflexivity. Qed.

Example location_stored :
  normalized example_runtime location_body =
    Return {| lat := Some (Finite 81 (-1)); lng := Some (Finite (-297) (-2));
              timestamp := Some 1700000000000; speed := Some (of_Z 0);
              accuracy := Some (of_Z 5); address := None |}.
Proof. vm_compute. reflexivity. Qed.

Example bad_latitude_refused :
  post_api_driver_location example_runtime bad_latitude (online 3000) seeded =
    (Return {| status := 500;
               json := ErrorMessage (CastError "Number" "lastLocation.lat") |},
     seeded).
Proof. vm_compute. reflexivity. Qed.

Example create_driver_needs_name :
  post_api_drivers example_runtime {[ "phone" := VString "+1-555-0199" ]}
    (online 5000) seeded =
    (Return {| status := 500; json := ErrorMessage (ValidatorError "name") |}, seeded).
Proof. vm_compute. reflexivity. Qed.

(** ** The theorems at concrete requests *)

Lemma tracking_fail_safe_stop_witness :
  exists d' s',
    post_api_driver_tracking example_runtime garbage_body (online 3000) active =
      (Return {| status := 200; json := SuccessDriver d' |}, s')
    /\ drivers s' !! 1%N = Some d'
    /\ isTracking d' = false.
Proof.
  apply (tracking_fail_safe_stop example_runtime garbage_body (online 3000)
           active 1%N maria_active).
  - reflexivity.
  - vm_compute. reflexivity.
  - vm_compute. reflexivity.
  - vm_compute. discriminate.
Defined.

Lemma tracking_stop_frame_witness :
  exists d',
    post_api_driver_tracking example_runtime garbage_body (online 3000) active =
      (Return {| status := 200; json := SuccessDriver d' |},
       with_drivers (<[1%N := d']> (drivers active)) active)
    /\ consentGiven d' = false
    /\ consentTimestamp d' = None
    /\ trackingHistory d' = trackingHistory maria_active
    /\ lastLocation d' = lastLocation maria_active
    /\ name d' = name maria_active
    /\ phone d' = phone maria_active
    /\ _id d' = _id maria_active
    /\ createdAt d' = createdAt maria_active.
Proof.
  apply (tracking_stop_frame example_runtime garbage_body (online 3000)
           active 1%N maria_active).
  - reflexivity.
  - vm_compute. reflexivity.
  - vm_compute. reflexivity.
  - vm_compute. discriminate.
Defined.

Lemma tracking_implies_consent_witness :
  consentGiven maria_active = true /\ consentTimestamp maria_active <> None.
Proof.
  apply (tracking_implies_consent example_runtime active 1%N maria_active).
  - unfold active. do 2 apply reachable_step. apply reachable_empty.
  - vm_compute. reflexivity.
  - reflexivity.
Defined.

(** C3, as stated, fails: a location update without latitude, for an
    existing driver, is answered with success, appends a history entry and
    overwrites the snapshot. *)
Lemma location_missing_latitude_accepted :
  drivers seeded !! 1%N = Some maria
  /\ prop no_latitude "latitude" = VUndefined
  /\ (post_api_driver_location example_runtime no_latitude (online 3000) seeded).1
       = Return {| status := 200; json := Success |}
  /\ exists d',
       drivers (post_api_driver_location example_runtime no_latitude
                  (online 3000) seeded).2 !! 1%N = Some d'
       /\ trackingHistory maria = []
       /\ length (trackingHistory d') = 1%nat
       /\ timestamp (lastLocation maria) = None
       /\ timestamp (lastLocation d') = Some 1700000000000.
Proof.
  split; [vm_compute; reflexivity|]. split; [vm_compute; reflexivity|].
  split; [vm_compute; reflexivity|].
  eexists. split; [vm_compute; reflexivity|]. repeat split.
Qed.

Lemma location_coordinate_casts_witness :
  (exists err,
     post_api_driver_location example_runtime bad_latitude (online 3000) seeded =
       (Return {| status := 500; json := ErrorMessage err |}, seeded))
  /\ exists loc,
       post_api_driver_location example_runtime no_latitude (online 3000) seeded =
         (Return {| status := 200; json := Success |},
          with_drivers
            (<[1%N := touch 3000 (set_location_and_push loc loc maria)]>
               (drivers seeded)) seeded)
       /\ lat loc = None.
Proof.
  destruct (location_coordinate_casts example_runtime bad_latitude (online 3000) seeded)
    as [Hbad _].
  destruct (location_coordinate_casts example_runtime no_latitude (online 3000) seeded)
    as [_ Hmissing].
  split.
  - apply Hbad. left. vm_compute. reflexivity.
  - eexists.
    destruct (Hmissing 1%N maria _ eq_refl
                ltac:(vm_compute; reflexivity) ltac:(vm_compute; reflexivity)
                ltac:(vm_compute; reflexivity)) as (H & Hlat & _).
    split; [exact H|]. apply Hlat. vm_compute. reflexivity.
Defined.

(** C4, as stated, fails: a location update without timestamp, otherwise
    valid and for an existing driver, is answered with status 500 and stores
    nothing; the time of receipt is not used. *)
Lemma location_missing_timestamp_rejected :
  drivers seeded !! 1%N = Some maria
  /\ prop no_timestamp "timestamp" = VUndefined
  /\ numeric (prop no_timestamp "latitude") = true
  /\ numeric (prop no_timestamp "longitude") = true
  /\ post_api_driver_location example_runtime no_timestamp (online 3000) seeded =
       (Return {| status := 500;
                  json := ErrorMessage (CastError "date" "lastLocation.timestamp") |},
        seeded).
Proof. repeat split; vm_compute; reflexivity. Qed.

Lemma location_timestamp_casts_witness :
  exists err,
    post_api_driver_location example_runtime no_timestamp (online 3000) seeded =
      (Return {| status := 500; json := ErrorMessage err |}, seeded).
Proof.
  apply (location_timestamp_casts example_runtime no_timestamp (online 3000) seeded).
  left. vm_compute. reflexivity.
Defined.

(** C5, as stated, fails: a driverId that is not the identifier of any
    document because it is no ObjectId at all is answered with status 500, not
    with 404, by the toggle and, with a valid payload, by the location update. *)
Lemma unknown_malformed_driver_is_500 :
  connected (online 3000) = true
  /\ prop malformed_id "driverId" = VString "xyz"
  /\ valid_payload example_runtime malformed_id = true
  /\ prop malformed_id "timestamp" = VNumber (of_Z 1700000000000)
  /\ post_api_driver_tracking example_runtime malformed_id (online 3000) seeded =
       (Return {| status := 500;
                  json := ErrorMessage (CastError "ObjectId" "_id") |}, seeded)
  /\ post_api_driver_location example_runtime malformed_id (online 3000) seeded =
       (Return {| status := 500;
                  json := ErrorMessage (CastError "ObjectId" "_id") |}, seeded).
Proof. repeat split; vm_compute; reflexivity. Qed.

Lemma unknown_driver_not_created_witness :
  (exists r,
     post_api_driver_tracking example_runtime unknown_body (online 3000) seeded =
       (Return r, seeded)
     /\ match castObjectId example_runtime (prop unknown_body "driverId") with
        | Return _ => r = {| status := 404; json := DriverNotFound |}
        | Throw err => r = {| status := 500; json := ErrorMessage err |}
        end)
  /\ (exists r,
        post_api_driver_location example_runtime unknown_body (online 3000) seeded =
          (Return r, seeded)
        /\ match castObjectId example_runtime (prop unknown_body "driverId"),
                 normalized example_runtime unknown_body with
           | Return _, Return _ => r = {| status := 404; json := DriverNotFound |}
           | _, _ => exists err, r = {| status := 500; json := ErrorMessage err |}
           end)
  /\ (forall e',
        get_api_drivers e'
          (post_api_driver_tracking example_runtime unknown_body (online 3000) seeded).2
          = get_api_drivers e' seeded
        /\ get_api_drivers e'
             (post_api_driver_location example_runtime unknown_body (online 3000) seeded).2
             = get_api_drivers e' seeded).
Proof.
  apply (unknown_driver_not_created example_runtime unknown_body (online 3000) seeded).
  - reflexivity.
  - intros i Hi. vm_compute in Hi. injection Hi as <-. vm_compute. reflexivity.
Defined.

Example unknown_driver_is_404 :
  post_api_driver_tracking example_runtime unknown_body (online 3000) seeded =
    (Return {| status := 404; json := DriverNotFound |}, seeded)
  /\ post_api_driver_location example_runtime unknown_body (online 3000) seeded =
       (Return {| status := 404; json := DriverNotFound |}, seeded).
Proof. split; vm_compute; reflexivity. Qed.

(** Of two fields that fail their cast the later one of the literal is
    reported. *)
Example two_failing_fields :
  post_api_driver_location example_runtime (delete "timestamp" bad_latitude)
    (online 3000) seeded =
    (Return {| status := 500;
               json := ErrorMessage (CastError "date" "lastLocation.timestamp") |},
     seeded).
Proof. vm_compute. reflexivity. Qed.

(** C10, as stated, fails: a payload that is valid in the spec's sense but
    carries no timestamp, for an existing driver whose isTracking is false and
    with the store reachable, is answered with status 500 and stores nothing. *)
Lemma location_valid_without_timestamp_rejected :
  drivers seeded !! 1%N = Some maria
  /\ isTracking maria = false
  /\ addresses example_runtime no_timestamp 1%N
  /\ connected (online 3000) = true
  /\ valid_payload example_runtime no_timestamp = true
  /\ exists err,
       post_api_driver_location example_runtime no_timestamp (online 3000) seeded =
         (Return {| status := 500; json := ErrorMessage err |}, seeded).
Proof.
  split; [vm_compute; reflexivity|]. split; [reflexivity|].
  split; [vm_compute; reflexivity|]. split; [reflexivity|].
  split; [vm_compute; reflexivity|]. eexists. vm_compute. reflexivity.
Qed.

Lemma location_accepted_without_gate_witness :
  exists d',
    post_api_driver_location example_runtime location_body (online 3000) seeded =
      (Return {| status := 200; json := Success |},
       with_drivers (<[1%N := d']> (drivers seeded)) seeded)
    /\ lastLocation d' = normalized_by_spec example_runtime (clock (online 3000))
                           location_body
    /\ trackingHistory d' =
         trackingHistory maria
           ++ [normalized_by_spec example_runtime (clock (online 3000)) location_body]
    /\ isTracking d' = isTracking maria
    /\ consentGiven d' = consentGiven maria
    /\ consentTimestamp d' = consentTimestamp maria
    /\ name d' = name maria
    /\ phone d' = phone maria
    /\ _id d' = _id maria
    /\ createdAt d' = createdAt maria.
Proof.
  apply (location_accepted_without_gate example_runtime location_body (online 3000)
           seeded 1%N maria).
  - reflexivity.
  - vm_compute. reflexivity.
  - vm_compute. reflexivity.
  - vm_compute. reflexivity.
  - vm_compute. discriminate.
Defined.

Lemma seed_replaces_collection_witness :
  exists s',
    post_api_init_drivers (online 4000) active =
      (Return {| status := 200; json := SuccessCount (length sampleDrivers) |}, s')
    /\ (map_to_list (drivers s')).*2 ≡ₚ sample_documents (nextId active) 4000
    /\ (fun d => {| draft_name := Some (name d); draft_phone := Some (phone d) |})
         <$> sample_documents (nextId active) 4000 = sampleDrivers
    /\ size (drivers s') = 4%nat.
Proof.
  apply (seed_replaces_collection (online 4000) active). reflexivity.
Defined.


(** * Further properties of the routes *)

(** ** What one request does to the store *)

Lemma tracking_cases rt body e s :
  (exists err,
     post_api_driver_tracking rt body e s =
       (Return {| status := 500; json := ErrorMessage err |}, s))
  \/ post_api_driver_tracking rt body e s =
       (Return {| status := 404; json := DriverNotFound |}, s)
  \/ (exists i d,
        connected e = true /\ addresses rt body i /\ drivers s !! i = Some d /\
        let t := strict_equals (prop body "action") (VString "start_tracking") in
        let d' := touch (clock e)
                    (set_tracking t t (if t then Some (clock e) else None) d) in
        post_api_driver_tracking rt body e s =
          (Return {| status := 200; json := SuccessDriver d' |},
           with_drivers (<[i := d']> (drivers s)) s)).
Proof.
  rewrite tracking_unfold.
  destruct (findOneAndUpdate_cases rt (prop body "driverId")
              (tracking_update (prop body "action") (clock e)) e s)
    as [[err H] | [H | (i & f & d & Hid & Hu & Hc & Hd & H)]]; rewrite H.
  - left. eauto.
  - right; left. reflexivity.
  - right; right. exists i, d.
    rewrite castUpdate_tracking in Hu. injection Hu as <-. auto.
Qed.

Lemma create_unfold rt body e s :
  post_api_drivers rt body e s =
    match validate {| draft_name := castString rt (prop body "name");
                      draft_phone := castString rt (prop body "phone") |} with
    | Throw err => (Return {| status := 500; json := ErrorMessage err |}, s)
    | Return np =>
        if connected e
        then (Return {| status := 200;
                        json := DriverJson (insert_one (clock e) np s).1 |},
              (insert_one (clock e) np s).2)
        else (Return {| status := 500; json := ErrorMessage MongoError |}, s)
    end.
Proof.
  cbv [post_api_drivers try_catch bind Driver_save on_store lift].
  destruct (validate _) as [np|err]; [|reflexivity].
  destruct (connected e); reflexivity.
Qed.

(** The five things a request can do to the store: nothing, insert a new
    document under the next identifier, replace a document by its toggled
    version, replace a document by its version with one more location, or
    replace the collection by the sample documents. *)
Lemma handle_store_cases rt r e s :
  (handle rt r e s).2 = s
  \/ (exists nm ph, (handle rt r e s).2 = (insert_one (clock e) (nm, ph) s).2)
  \/ (exists i d t c ts,
        drivers s !! i = Some d /\
        (handle rt r e s).2 =
          with_drivers (<[i := touch (clock e) (set_tracking t c ts d)]> (drivers s)) s)
  \/ (exists i d body loc,
        drivers s !! i = Some d /\ normalized rt body = Return loc /\
        (handle rt r e s).2 =
          with_drivers
            (<[i := touch (clock e) (set_location_and_push loc loc d)]> (drivers s)) s)
  \/ (r = SeedSampleDrivers /\
      (handle rt r e s).2 =
        {| drivers := collection_of (sample_documents (nextId s) (clock e));
           nextId := N.succ (N.succ (N.succ (N.succ (nextId s)))) |}).
Proof.
  destruct r as [|body|body|body|]; simpl.
  - left. rewrite get_api_drivers_unfold. reflexivity.
  - rewrite create_unfold. destruct (validate _) as [[nm ph]|err]; [|left; reflexivity].
    destruct (connected e); [|left; reflexivity].
    right; left. exists nm, ph. reflexivity.
  - destruct (tracking_cases rt body e s)
      as [[err H] | [H | (i & d & _ & _ & Hd & H)]]; cbv zeta in *; rewrite H.
    + left. reflexivity.
    + left. reflexivity.
    + right; right; left. eauto 10.
  - destruct (location_cases rt body e s)
      as [[err H] | [H | (i & d & loc & _ & _ & Hd & Hloc & H)]]; rewrite H.
    + left. reflexivity.
    + left. reflexivity.
    + right; right; right; left. eauto 10.
  - destruct (connected e) eqn:Hc.
    + right; right; right; right. rewrite (init_drivers_online e s Hc). auto.
    + left. rewrite (init_drivers_offline e s Hc). reflexivity.
Qed.

(** A property of documents that new documents have and that the two
    updates keep holds of every document of every reachable store. *)
Lemma reachable_documents rt (P : Driver -> Prop) :
  (forall id nm ph now, P (Driver_document id nm ph now)) ->
  (forall t c ts now d, P d -> P (touch now (set_tracking t c ts d))) ->
  (forall body loc now d,
     normalized rt body = Return loc -> P d ->
     P (touch now (set_location_and_push loc loc d))) ->
  forall s, reachable rt s -> map_Forall (fun _ d => P d) (drivers s).
Proof.
  intros Hnew Htoggle Hloc s Hr.
  induction Hr as [n | s e r _ IH].
  - apply map_Forall_empty.
  - destruct (handle_store_cases rt r e s)
      as [H | [(nm & ph & H) | [(i & d & t & c & ts & Hd & H)
         | [(i & d & body & loc & Hd & Hn & H) | [_ H]]]]]; rewrite H; simpl.
    + exact IH.
    + apply map_Forall_insert_2; [apply Hnew | exact IH].
    + apply map_Forall_insert_2; [apply Htoggle, (IH i d Hd) | exact IH].
    + apply map_Forall_insert_2; [eapply Hloc; [exact Hn | exact (IH i d Hd)] | exact IH].
    + unfold collection_of. simpl.
      repeat (apply map_Forall_insert_2; [apply Hnew|]). apply map_Forall_empty.
Qed.

Lemma handle_well_keyed rt r e s : well_keyed s -> well_keyed (handle rt r e s).2.
Proof.
  intros Hs.
  assert (forall n, (nextId s <= n)%N ->
            map_Forall (fun i d => _id d = i /\ (i < n)%N) (drivers s)) as Hmono.
  { intros n Hn i d Hd. destruct (Hs i d Hd). split; [assumption | lia]. }
  destruct (handle_store_cases rt r e s)
    as [H | [(nm & ph & H) | [(i & d & t & c & ts & Hd & H)
       | [(i & d & body & loc & Hd & Hn & H) | [_ H]]]]]; rewrite H;
    unfold well_keyed; simpl.
  - exact Hs.
  - apply map_Forall_insert_2; [split; [reflexivity | lia] | apply Hmono; lia].
  - apply map_Forall_insert_2; [exact (Hs i d Hd) | exact Hs].
  - apply map_Forall_insert_2; [exact (Hs i d Hd) | exact Hs].
  - unfold collection_of. simpl.
    repeat (apply map_Forall_insert_2; [simpl; split; [reflexivity | lia]|]).
    apply map_Forall_empty.
Qed.

Lemma reachable_well_keyed rt s : reachable rt s -> well_keyed s.
Proof.
  induction 1 as [n | s e r _ IH].
  - apply map_Forall_empty.
  - apply handle_well_keyed, IH.
Qed.

Lemma well_keyed_next_free s : well_keyed s -> drivers s !! nextId s = None.
Proof.
  intros Hs. destruct (drivers s !! nextId s) as [d|] eqn:Hd; [|reflexivity].
  destruct (Hs _ _ Hd) as [_ Hlt]. lia.
Qed.

(** ** The tracking toggle, further *)

(** X1. The exact action 'start_tracking' on an existing driver, with the
    store reachable, is answered with the updated driver: isTracking and
    consentGiven are true and consentTimestamp is the server's clock at the
    request; trackingHistory, lastLocation, name, phone, the identifier and the
    creation time are as before. *)
Theorem tracking_start_records_consent rt body e s i d :
  connected e = true ->
  addresses rt body i ->
  drivers s !! i = Some d ->
  prop body "action" = VString "start_tracking" ->
  exists d',
    post_api_driver_tracking rt body e s =
      (Return {| status := 200; json := SuccessDriver d' |},
       with_drivers (<[i := d']> (drivers s)) s)
    /\ isTracking d' = true
    /\ consentGiven d' = true
    /\ consentTimestamp d' = Some (clock e)
    /\ trackingHistory d' = trackingHistory d
    /\ lastLocation d' = lastLocation d
    /\ name d' = name d
    /\ phone d' = phone d
    /\ _id d' = _id d
    /\ createdAt d' = createdAt d.
Proof.
  intros Hc Hid Hd Ha.
  pose proof (tracking_applied rt body e s i d Hc Hid Hd) as H. cbv zeta in H.
  rewrite Ha in H. simpl in H.
  eexists. split; [exact H|]. repeat split.
Qed.

Lemma tracking_start_records_consent_witness :
  exists d',
    post_api_driver_tracking example_runtime start_body (online 2000) seeded =
      (Return {| status := 200; json := SuccessDriver d' |},
       with_drivers (<[1%N := d']> (drivers seeded)) seeded)
    /\ isTracking d' = true
    /\ consentGiven d' = true
    /\ consentTimestamp d' = Some (clock (online 2000))
    /\ trackingHistory d' = trackingHistory maria
    /\ lastLocation d' = lastLocation maria
    /\ name d' = name maria
    /\ phone d' = phone maria
    /\ _id d' = _id maria
    /\ createdAt d' = createdAt maria.
Proof.
  apply (tracking_start_records_consent example_runtime start_body (online 2000)
           seeded 1%N maria).
  - reflexivity.
  - vm_compute. reflexivity.
  - vm_compute. reflexivity.
  - vm_compute. reflexivity.
Defined.

(** X2. The last toggle wins: when two toggles name the same driver and the
    second one reaches the store, the second one's answer and the store after
    it are what they would be had the first never been sent. In particular a
    repeated start leaves the driver as one start at the later time. *)
Theorem tracking_last_command_wins rt body1 body2 e1 e2 s :
  castObjectId rt (prop body1 "driverId") = castObjectId rt (prop body2 "driverId") ->
  connected e2 = true ->
  post_api_driver_tracking rt body2 e2 (post_api_driver_tracking rt body1 e1 s).2 =
    post_api_driver_tracking rt body2 e2 s.
Proof.
  intros Hsame Hc2.
  destruct (tracking_cases rt body1 e1 s)
    as [[err H] | [H | (i & d & _ & Hid & Hd & H)]]; cbv zeta in *; rewrite H; simpl;
    try reflexivity.
  unfold addresses in Hid. rewrite Hsame in Hid.
  rewrite (tracking_applied rt body2 e2 s i d Hc2 Hid Hd).
  erewrite (tracking_applied rt body2 e2 _ i _ Hc2 Hid); [|apply lookup_insert_eq].
  simpl. unfold with_drivers. simpl. rewrite insert_insert_eq. reflexivity.
Qed.

Lemma tracking_last_command_wins_witness :
  post_api_driver_tracking example_runtime start_body (online 3000)
    (post_api_driver_tracking example_runtime garbage_body (online 2500) active).2 =
    post_api_driver_tracking example_runtime start_body (online 3000) active.
Proof.
  apply (tracking_last_command_wins example_runtime garbage_body start_body
           (online 2500) (online 3000) active).
  - reflexivity.
  - reflexivity.
Defined.

(** ** Documents are neither created nor dropped by updates *)

Lemma update_store_cases rt body e s :
  let ok (s' : store) :=
    s' = s \/
    exists i d d',
      addresses rt body i /\ drivers s !! i = Some d /\
      s' = with_drivers (<[i := d']> (drivers s)) s in
  ok (post_api_driver_tracking rt body e s).2
  /\ ok (post_api_driver_location rt body e s).2.
Proof.
  cbv zeta. split.
  - destruct (tracking_cases rt body e s)
      as [[err H] | [H | (i & d & _ & Hid & Hd & H)]]; cbv zeta in *; rewrite H; simpl;
      eauto 10.
  - destruct (location_cases rt body e s)
      as [[err H] | [H | (i & d & loc & _ & Hid & Hd & _ & H)]]; rewrite H; simpl;
      eauto 10.
Qed.

Lemma replaced_document_lookup (m : gmap ObjectId Driver) i d d' j :
  m !! i = Some d ->
  (is_Some (<[i := d']> m !! j) <-> is_Some (m !! j))
  /\ (i <> j -> <[i := d']> m !! j = m !! j).
Proof.
  intros Hd. split.
  - destruct (decide (i = j)) as [->|Hne].
    + rewrite lookup_insert_eq, Hd. split; eauto.
    + rewrite lookup_insert_ne by exact Hne. reflexivity.
  - intros Hne. apply lookup_insert_ne, Hne.
Qed.

(** X3. For a request whose fields, driverId included, are JSON scalars or
    missing: whatever their values and whether or not the request is accepted,
    a toggle or a location update neither adds nor removes a document (there
    is no upsert), and it leaves every document other than the one its
    driverId casts to exactly as it was. *)
Theorem updates_keep_the_documents rt body e s j :
  (is_Some (drivers (post_api_driver_tracking rt body e s).2 !! j)
     <-> is_Some (drivers s !! j))
  /\ (is_Some (drivers (post_api_driver_location rt body e s).2 !! j)
        <-> is_Some (drivers s !! j))
  /\ (~ addresses rt body j ->
      drivers (post_api_driver_tracking rt body e s).2 !! j = drivers s !! j
      /\ drivers (post_api_driver_location rt body e s).2 !! j = drivers s !! j).
Proof.
  destruct (update_store_cases rt body e s) as [Ht Hl]. cbv zeta in Ht, Hl.
  assert (forall s',
            (s' = s \/
             exists i d d',
               addresses rt body i /\ drivers s !! i = Some d /\
               s' = with_drivers (<[i := d']> (drivers s)) s) ->
            (is_Some (drivers s' !! j) <-> is_Some (drivers s !! j))
            /\ (~ addresses rt body j -> drivers s' !! j = drivers s !! j)) as Hone.
  { intros s' [-> | (i & d & d' & Hid & Hd & ->)]; [split; [reflexivity | auto]|].
    simpl. destruct (replaced_document_lookup (drivers s) i d d' j Hd) as [H1 H2].
    split; [exact H1|]. intros Hn. apply H2. intros ->. contradiction. }
  destruct (Hone _ Ht) as [Ht1 Ht2]. destruct (Hone _ Hl) as [Hl1 Hl2].
  split; [exact Ht1|]. split; [exact Hl1|]. auto.
Qed.

(** ** Creating drivers *)

Lemma required_present path s : s <> "" -> required path (Some s) = Return s.
Proof.
  intros Hs. simpl. destruct (String.eqb s "") eqn:E; [|reflexivity].
  apply String.eqb_eq in E. contradiction.
Qed.

Lemma create_applied rt body e s nm ph :
  connected e = true ->
  castString rt (prop body "name") = Some nm -> nm <> "" ->
  castString rt (prop body "phone") = Some ph -> ph <> "" ->
  post_api_drivers rt body e s =
    (Return {| status := 200;
               json := DriverJson (Driver_document (nextId s) nm ph (clock e)) |},
     {| drivers := <[nextId s := Driver_document (nextId s) nm ph (clock e)]> (drivers s);
        nextId := N.succ (nextId s) |}).
Proof.
  intros Hc Hn Hne Hp Hpe. rewrite create_unfold. unfold validate. simpl.
  rewrite Hn, Hp, (required_present _ _ Hne), (required_present _ _ Hpe). simpl.
  rewrite Hc. reflexivity.
Qed.

(** X4. In a store the server has reached, creating a driver with a name
    and a phone that are not empty adds exactly one document, under an
    identifier no document had: the new driver is idle, without consent and
    with an empty history, carries the name and phone sent, and is the
    document of the answer; every other document stays as it was. *)
Theorem create_driver_adds_one_document rt body e s nm ph :
  reachable rt s ->
  connected e = true ->
  castString rt (prop body "name") = Some nm -> nm <> "" ->
  castString rt (prop body "phone") = Some ph -> ph <> "" ->
  exists d s',
    post_api_drivers rt body e s = (Return {| status := 200; json := DriverJson d |}, s')
    /\ drivers s !! _id d = None
    /\ drivers s' = <[_id d := d]> (drivers s)
    /\ size (drivers s') = S (size (drivers s))
    /\ name d = nm /\ phone d = ph
    /\ isTracking d = false /\ consentGiven d = false /\ consentTimestamp d = None
    /\ trackingHistory d = [] /\ createdAt d = clock e.
Proof.
  intros Hr Hc Hn Hne Hp Hpe.
  pose proof (well_keyed_next_free s (reachable_well_keyed rt s Hr)) as Hfree.
  eexists _, _. split; [apply (create_applied rt body e s nm ph); assumption|].
  simpl. split; [exact Hfree|]. split; [reflexivity|].
  split; [apply map_size_insert_None, Hfree|]. repeat split.
Qed.

Lemma create_driver_adds_one_document_witness :
  exists d s',
    post_api_drivers example_runtime new_driver_body (online 5000) active =
      (Return {| status := 200; json := DriverJson d |}, s')
    /\ drivers active !! _id d = None
    /\ drivers s' = <[_id d := d]> (drivers active)
    /\ size (drivers s') = S (size (drivers active))
    /\ name d = "Ana Lopez" /\ phone d = "+1-555-0105"
    /\ isTracking d = false /\ consentGiven d = false /\ consentTimestamp d = None
    /\ trackingHistory d = [] /\ createdAt d = clock (online 5000).
Proof.
  apply (create_driver_adds_one_document example_runtime new_driver_body
           (online 5000) active "Ana Lopez" "+1-555-0105").
  - unfold active. do 2 apply reachable_step. apply reachable_empty.
  - reflexivity.
  - vm_compute. reflexivity.
  - discriminate.
  - vm_compute. reflexivity.
  - discriminate.
Defined.

Lemma castString_blank rt v :
  blank v = true -> castString rt v = None \/ castString rt v = Some "".
Proof.
  destruct v as [| |b|n|str]; simpl; try discriminate; auto.
  intros H. apply String.eqb_eq in H. subst. auto.
Qed.

Lemma required_blank path o :
  o = None \/ o = Some "" -> required path o = Throw (ValidatorError path).
Proof. intros [-> | ->]; reflexivity. Qed.

(** X5. A driver cannot be created without a name and a phone: when either
    is missing, null or the empty string the request is answered with status
    500 and a validator error, and no document is stored. *)
Theorem create_driver_requires_name_and_phone rt body e s :
  blank (prop body "name") = true \/ blank (prop body "phone") = true ->
  exists path,
    post_api_drivers rt body e s =
      (Return {| status := 500; json := ErrorMessage (ValidatorError path) |}, s).
Proof.
  intros H. rewrite create_unfold. unfold validate. simpl.
  destruct H as [H|H].
  - rewrite (required_blank "name" _ (castString_blank rt _ H)). simpl. eauto.
  - destruct (required "name" _) as [n|err] eqn:En; simpl.
    + rewrite (required_blank "phone" _ (castString_blank rt _ H)). simpl. eauto.
    + unfold required in En.
      destruct (castString rt (prop body "name")) as [str|];
        [destruct (String.eqb str "")|]; inversion En; eauto.
Qed.

Lemma create_driver_requires_name_and_phone_witness :
  exists path,
    post_api_drivers example_runtime {[ "name" := VString "Ana Lopez" ]}
      (online 5000) seeded =
      (Return {| status := 500; json := ErrorMessage (ValidatorError path) |}, seeded).
Proof.
  apply (create_driver_requires_name_and_phone example_runtime
           {[ "name" := VString "Ana Lopez" ]} (online 5000) seeded).
  right. vm_compute. reflexivity.
Defined.

Lemma listing_online e s :
  connected e = true ->
  (get_api_drivers e s).1 =
    Return {| status := 200;
              json := DriverList (merge_sort newer_first (map_to_list (drivers s)).*2) |}.
Proof. intros Hc. rewrite get_api_drivers_unfold, Hc. reflexivity. Qed.

Lemma newest_is_sorted_first (d : Driver) (l : list Driver) :
  StronglySorted newer_first l ->
  d ∈ l ->
  (forall x, x ∈ l -> x = d \/ (createdAt x < createdAt d)%Z) ->
  exists rest, l = d :: rest.
Proof.
  intros Hsorted Hin Hnew. destruct l as [|h rest]; [inversion Hin|].
  apply StronglySorted_cons in Hsorted as [Hh _].
  destruct (Hnew h) as [-> | Hlt]; [left | eauto |].
  apply elem_of_cons in Hin as [-> | Hin]; [eauto|].
  rewrite Forall_forall in Hh. specialize (Hh d Hin). unfold newer_first in Hh. lia.
Qed.

(** X6. A driver created after all the others is the first of the listing:
    when every document was created before the server's clock at the
    creation, the listing served next (with the store reachable) starts with
    the driver just created. *)
Theorem created_driver_is_listed_first rt body e e' s nm ph :
  connected e = true ->
  connected e' = true ->
  castString rt (prop body "name") = Some nm -> nm <> "" ->
  castString rt (prop body "phone") = Some ph -> ph <> "" ->
  (forall i d, drivers s !! i = Some d -> (createdAt d < clock e)%Z) ->
  exists d rest,
    (post_api_drivers rt body e s).1 = Return {| status := 200; json := DriverJson d |}
    /\ (get_api_drivers e' (post_api_drivers rt body e s).2).1 =
         Return {| status := 200; json := DriverList (d :: rest) |}.
Proof.
  intros Hc Hc' Hn Hne Hp Hpe Hold.
  rewrite (create_applied rt body e s nm ph Hc Hn Hne Hp Hpe). simpl.
  set (d := Driver_document (nextId s) nm ph (clock e)).
  rewrite (listing_online e' _ Hc'). simpl.
  destruct (newest_is_sorted_first d
              (merge_sort newer_first (map_to_list (<[nextId s := d]> (drivers s))).*2))
    as [rest Hrest].
  - apply StronglySorted_merge_sort; apply _.
  - rewrite merge_sort_Permutation. apply list_elem_of_fmap.
    exists (nextId s, d). split; [reflexivity|].
    apply elem_of_map_to_list, lookup_insert_eq.
  - intros x Hx. rewrite merge_sort_Permutation in Hx.
    apply list_elem_of_fmap in Hx as ([k x'] & -> & Hx). simpl.
    apply elem_of_map_to_list in Hx.
    destruct (decide (nextId s = k)) as [<-|Hk].
    + rewrite lookup_insert_eq in Hx. left. congruence.
    + rewrite lookup_insert_ne in Hx by exact Hk. right. exact (Hold k x' Hx).
  - exists d, rest. rewrite Hrest. auto.
Qed.

Lemma created_driver_is_listed_first_witness :
  exists d rest,
    (post_api_drivers example_runtime new_driver_body (online 5000) active).1 =
      Return {| status := 200; json := DriverJson d |}
    /\ (get_api_drivers (online 6000)
          (post_api_drivers example_runtime new_driver_body (online 5000) active).2).1 =
         Return {| status := 200; json := DriverList (d :: rest) |}.
Proof.
  apply (created_driver_is_listed_first example_runtime new_driver_body
           (online 5000) (online 6000) active "Ana Lopez" "+1-555-0105").
  - reflexivity.
  - reflexivity.
  - vm_compute. reflexivity.
  - discriminate.
  - vm_compute. reflexivity.
  - discriminate.
  - intros i d Hd.
    assert (d ∈ (map_to_list (drivers active)).*2) as Hin.
    { apply list_elem_of_fmap. exists (i, d). split; [reflexivity|].
      apply elem_of_map_to_list, Hd. }
    assert (Forall (fun x => (createdAt x < 5000)%Z) (map_to_list (drivers active)).*2)
      as Hall by (vm_compute; repeat constructor).
    rewrite Forall_forall in Hall. exact (Hall d Hin).
Defined.

(** ** Failures *)

(** X7. With the store out of reach every route that writes (create,
    toggle, location update, seeding) is answered with status 500 and an
    error, and the store is left as it was; only the listing answers 200. *)
Theorem writes_fail_when_store_is_unreachable rt r e s :
  connected e = false ->
  r <> ListDrivers ->
  exists err,
    handle rt r e s = (Return {| status := 500; json := ErrorMessage err |}, s).
Proof.
  intros Hc Hr. destruct r as [|body|body|body|]; simpl.
  - contradiction.
  - rewrite create_unfold, Hc. destruct (validate _); eauto.
  - rewrite tracking_unfold.
    destruct (findOneAndUpdate_offline rt (prop body "driverId")
                (tracking_update (prop body "action") (clock e)) e s Hc) as [err ->].
    eauto.
  - rewrite location_unfold.
    destruct (findOneAndUpdate_offline rt (prop body "driverId")
                (location_update rt body) e s Hc) as [err ->].
    eauto.
  - rewrite (init_drivers_offline e s Hc). eauto.
Qed.

Lemma writes_fail_when_store_is_unreachable_witness :
  exists err,
    handle example_runtime (SubmitLocation location_body) (offline 3000) active =
      (Return {| status := 500; json := ErrorMessage err |}, active).
Proof.
  apply (writes_fail_when_store_is_unreachable example_runtime
           (SubmitLocation location_body) (offline 3000) active).
  - reflexivity.
  - discriminate.
Defined.

(** X8. Every route answers: no request makes a handler throw past its
    catch, the status is 200, 404 or 500, and a create, toggle, location or
    listing request that is not answered with 200 has changed nothing. *)
Theorem every_request_is_answered rt r e s :
  exists resp s',
    handle rt r e s = (Return resp, s')
    /\ (status resp = 200 \/ status resp = 404 \/ status resp = 500)%nat
    /\ (not_seeding r = true -> status resp <> 200%nat -> s' = s).
Proof.
  destruct r as [|body|body|body|]; simpl.
  - rewrite get_api_drivers_unfold. eexists _, _. split; [reflexivity|]. simpl. auto.
  - rewrite create_unfold. destruct (validate _) as [np|err].
    + destruct (connected e); eexists _, _; (split; [reflexivity|]); simpl; auto.
      split; [auto|]. intros _ H. contradiction.
    + eexists _, _. split; [reflexivity|]. simpl. auto.
  - destruct (tracking_cases rt body e s)
      as [[err H] | [H | (i & d & _ & _ & _ & H)]]; cbv zeta in *; rewrite H;
      eexists _, _; (split; [reflexivity|]); simpl; auto.
    split; [auto|]. intros _ Hn. contradiction.
  - destruct (location_cases rt body e s)
      as [[err H] | [H | (i & d & loc & _ & _ & _ & _ & H)]]; rewrite H;
      eexists _, _; (split; [reflexivity|]); simpl; auto.
    split; [auto|]. intros _ Hn. contradiction.
  - destruct (connected e) eqn:Hc.
    + rewrite (init_drivers_online e s Hc). eexists _, _. split; [reflexivity|].
      simpl. split; [auto | discriminate].
    + rewrite (init_drivers_offline e s Hc). eexists _, _. split; [reflexivity|].
      simpl. split; [auto | discriminate].
Qed.

(** ** What is stored *)

Lemma castNumber_never_NaN rt path v x :
  castNumber rt path v = Return x -> x <> Some NaN.
Proof.
  destruct v as [| |b|n|str]; simpl.
  - intros [= <-]. discriminate.
  - intros [= <-]. discriminate.
  - intros [= <-]. destruct b; discriminate.
  - destruct (isNaN n) eqn:E; [discriminate|]. intros [= <-] [= ->]. discriminate.
  - destruct (String.eqb str ""); [intros [= <-]; discriminate|].
    destruct (isNaN (StringToNumber rt str)) eqn:E; [discriminate|].
    intros [= <-] [= H]. rewrite H in E. discriminate.
Qed.

Lemma castNumber_speed_set rt path v x :
  castNumber rt path (or_else v (VNumber (of_Z 0))) = Return x -> is_Some x.
Proof.
  unfold or_else. destruct v as [| |b|n|str]; simpl.
  - intros [= <-]. eauto.
  - intros [= <-]. eauto.
  - destruct b; simpl; intros [= <-]; eauto.
  - destruct (negb (isNaN n || is_zero n)); simpl.
    + destruct (isNaN n); [discriminate|]. intros [= <-]. eauto.
    + intros [= <-]. eauto.
  - destruct (String.eqb str "") eqn:E; simpl.
    + intros [= <-]. eauto.
    + rewrite E. destruct (isNaN (StringToNumber rt str)); [discriminate|].
      intros [= <-]. eauto.
Qed.

Lemma normalized_complete rt body loc :
  normalized rt body = Return loc -> complete loc.
Proof.
  intros H. apply normalized_inv in H
    as (la & ln & ac & ts & sp & Hla & Hln & Hac & _ & Hsp & ->).
  unfold complete. simpl.
  split; [eauto|]. split; [eauto using castNumber_speed_set|].
  split; [reflexivity|]. eauto 10 using castNumber_never_NaN.
Qed.

Lemma reachable_snapshot rt s :
  reachable rt s -> map_Forall (fun _ d => snapshot_follows_history d) (drivers s).
Proof.
  apply (reachable_documents rt snapshot_follows_history).
  - intros id nm ph now. split; [reflexivity | constructor].
  - intros t c ts now d Hd. exact Hd.
  - intros body loc now d Hn [_ Hall]. split; simpl.
    + rewrite last_snoc. reflexivity.
    + apply Forall_app. split; [exact Hall|].
      constructor; [eauto using normalized_complete | constructor].
Qed.

(** X9. In every store the server reaches from an empty collection, the
    snapshot of a driver is the last entry of its history, and the schema's
    default (speed 0, nothing else) when the history is empty. *)
Theorem snapshot_is_last_history_entry rt s i d :
  reachable rt s ->
  drivers s !! i = Some d ->
  lastLocation d = default lastLocation_default (last (trackingHistory d)).
Proof.
  intros Hr Hd. exact (proj1 (reachable_snapshot rt s Hr i d Hd)).
Qed.

Lemma snapshot_is_last_history_entry_witness :
  lastLocation maria_located =
    default lastLocation_default (last (trackingHistory maria_located)).
Proof.
  apply (snapshot_is_last_history_entry example_runtime located 1%N maria_located).
  - unfold located, active. do 3 apply reachable_step. apply reachable_empty.
  - vm_compute. reflexivity.
Defined.

(** X10. In every store the server reaches from an empty collection, every
    entry of every history has a timestamp and a speed, no address, and no
    NaN among its numbers. *)
Theorem stored_locations_are_complete rt s i d loc :
  reachable rt s ->
  drivers s !! i = Some d ->
  loc ∈ trackingHistory d ->
  is_Some (timestamp loc) /\ is_Some (speed loc) /\ address loc = None
  /\ lat loc <> Some NaN /\ lng loc <> Some NaN
  /\ speed loc <> Some NaN /\ accuracy loc <> Some NaN.
Proof.
  intros Hr Hd Hin.
  pose proof (proj2 (reachable_snapshot rt s Hr i d Hd)) as Hall.
  rewrite Forall_forall in Hall. exact (Hall loc Hin).
Qed.

Lemma stored_locations_are_complete_witness :
  is_Some (timestamp (lastLocation maria_located))
  /\ is_Some (speed (lastLocation maria_located))
  /\ address (lastLocation maria_located) = None
  /\ lat (lastLocation maria_located) <> Some NaN
  /\ lng (lastLocation maria_located) <> Some NaN
  /\ speed (lastLocation maria_located) <> Some NaN
  /\ accuracy (lastLocation maria_located) <> Some NaN.
Proof.
  apply (stored_locations_are_complete example_runtime located 1%N maria_located).
  - unfold located, active. do 3 apply reachable_step. apply reachable_empty.
  - vm_compute. reflexivity.
  - simpl. apply list_elem_of_here.
Defined.

(** ** Sequences of requests *)

Lemma continues_refl d : continues d d.
Proof. unfold continues. auto. Qed.

Lemma continues_trans d1 d2 d3 : continues d1 d2 -> continues d2 d3 -> continues d1 d3.
Proof.
  unfold continues. intros (Ha & Ha1 & Ha2 & Ha3 & Ha4) (Hb & Hb1 & Hb2 & Hb3 & Hb4).
  split; [etrans; eassumption|]. repeat split; congruence.
Qed.

Lemma handle_continues rt r e s i d :
  well_keyed s ->
  not_seeding r = true ->
  drivers s !! i = Some d ->
  exists d', drivers (handle rt r e s).2 !! i = Some d' /\ continues d d'.
Proof.
  intros Hs Hr Hd.
  destruct (handle_store_cases rt r e s)
    as [H | [(nm & ph & H) | [(j & d0 & t & c & ts & Hd0 & H)
       | [(j & d0 & body & loc & Hd0 & Hn & H) | [-> _]]]]];
    [rewrite H.. | discriminate]; simpl.
  - eauto using continues_refl.
  - destruct (Hs i d Hd) as [_ Hlt].
    rewrite lookup_insert_ne by lia. eauto using continues_refl.
  - destruct (decide (j = i)) as [->|Hne].
    + rewrite lookup_insert_eq. rewrite Hd in Hd0. injection Hd0 as <-.
      eexists. split; [reflexivity|]. unfold continues. simpl.
      split; [reflexivity | auto].
    + rewrite lookup_insert_ne by exact Hne. eauto using continues_refl.
  - destruct (decide (j = i)) as [->|Hne].
    + rewrite lookup_insert_eq. rewrite Hd in Hd0. injection Hd0 as <-.
      eexists. split; [reflexivity|]. unfold continues. simpl.
      split; [apply prefix_app_r; reflexivity | auto].
    + rewrite lookup_insert_ne by exact Hne. eauto using continues_refl.
Qed.

Lemma serve_continues rt trace : forall s i d,
  well_keyed s ->
  Forall (fun c => not_seeding c.2 = true) trace ->
  drivers s !! i = Some d ->
  exists d', drivers (serve rt trace s) !! i = Some d' /\ continues d d'.
Proof.
  induction trace as [|[e r] trace IH]; intros s i d Hs Hall Hd; simpl.
  - eauto using continues_refl.
  - apply Forall_cons in Hall as [Hr Hall]. simpl in Hr.
    destruct (handle_continues rt r e s i d Hs Hr Hd) as (d1 & Hd1 & H1).
    destruct (IH _ i d1 (handle_well_keyed rt r e s Hs) Hall Hd1) as (d2 & Hd2 & H2).
    eauto using continues_trans.
Qed.

(** X11. Only the seeding removes anything. Through any sequence of
    listings, creations, toggles and location updates, accepted or not, a
    document of a reached store stays in the collection under its identifier,
    keeps its name, phone and creation time, and its history only grows at
    the end: what was recorded stays, in the same order. *)
Theorem history_is_append_only rt trace s i d :
  reachable rt s ->
  Forall (fun c => not_seeding c.2 = true) trace ->
  drivers s !! i = Some d ->
  exists d',
    drivers (serve rt trace s) !! i = Some d'
    /\ trackingHistory d `prefix_of` trackingHistory d'
    /\ name d' = name d /\ phone d' = phone d
    /\ _id d' = _id d /\ createdAt d' = createdAt d.
Proof.
  intros Hr Hall Hd.
  exact (serve_continues rt trace s i d (reachable_well_keyed rt s Hr) Hall Hd).
Qed.

(** ** Seeding, further *)

Lemma sample_documents_above first now i :
  (i < first)%N -> collection_of (sample_documents first now) !! i = None.
Proof.
  intros Hlt. unfold collection_of. simpl.
  rewrite !lookup_insert_ne by lia. apply lookup_empty.
Qed.

(** X12. Seeding forgets every driver there was: the sample documents get
    identifiers that were never issued, so an identifier of a document of the
    store before names no document after, and a toggle sent with it is
    answered 404. *)
Theorem seeding_forgets_the_drivers rt body e e' s i d :
  reachable rt s ->
  connected e = true ->
  connected e' = true ->
  drivers s !! i = Some d ->
  addresses rt body i ->
  drivers (post_api_init_drivers e s).2 !! i = None
  /\ post_api_driver_tracking rt body e' (post_api_init_drivers e s).2 =
       (Return {| status := 404; json := DriverNotFound |},
        (post_api_init_drivers e s).2).
Proof.
  intros Hr Hc Hc' Hd Hid.
  destruct (reachable_well_keyed rt s Hr i d Hd) as [_ Hlt].
  assert (drivers (post_api_init_drivers e s).2 !! i = None) as Hnone.
  { rewrite (init_drivers_online e s Hc). simpl.
    apply sample_documents_above, Hlt. }
  split; [exact Hnone|].
  rewrite tracking_unfold.
  erewrite findOneAndUpdate_no_match; eauto using castUpdate_tracking.
  congruence.
Qed.

Lemma seeding_forgets_the_drivers_witness :
  drivers (post_api_init_drivers (online 4000) active).2 !! 1%N = None
  /\ post_api_driver_tracking example_runtime garbage_body (online 4500)
       (post_api_init_drivers (online 4000) active).2 =
       (Return {| status := 404; json := DriverNotFound |},
        (post_api_init_drivers (online 4000) active).2).
Proof.
  apply (seeding_forgets_the_drivers example_runtime garbage_body
           (online 4000) (online 4500) active 1%N maria_active).
  - unfold active. do 2 apply reachable_step. apply reachable_empty.
  - reflexivity.
  - reflexivity.
  - vm_compute. reflexivity.
  - vm_compute. reflexivity.
Defined.

(** ** The listing without fallback *)

(** X13. The listing route of the second listing reports a store out of
    reach with status 500 instead of mock drivers; with the store reachable
    it returns the documents the sorted listing returns, each once, and like
    it changes nothing. *)
Theorem unsorted_listing_reports_failure e s :
  if connected e
  then exists l l',
         get_api_drivers_unsorted e s =
           (Return {| status := 200; json := DriverList l |}, s)
         /\ get_api_drivers e s =
              (Return {| status := 200; json := DriverList l' |}, s)
         /\ l ≡ₚ l'
         /\ l ≡ₚ (map_to_list (drivers s)).*2
  else get_api_drivers_unsorted e s =
         (Return {| status := 500; json := ErrorMessage MongoError |}, s).
Proof.
  rewrite get_api_drivers_unfold.
  cbv [get_api_drivers_unsorted try_catch bind Driver_find on_store].
  destruct (connected e); [|reflexivity].
  eexists _, _. split; [reflexivity|]. split; [reflexivity|].
  split; [|reflexivity]. symmetry. apply merge_sort_Permutation.
Qed.

Lemma history_is_append_only_witness :
  exists d',
    drivers (serve example_runtime busy_trace seeded) !! 1%N = Some d'
    /\ trackingHistory maria `prefix_of` trackingHistory d'
    /\ name d' = name maria /\ phone d' = phone maria
    /\ _id d' = _id maria /\ createdAt d' = createdAt maria.
Proof.
  apply (history_is_append_only example_runtime busy_trace seeded 1%N maria).
  - unfold seeded. apply (reachable_step example_runtime _ _ SeedSampleDrivers).
    apply reachable_empty.
  - repeat constructor.
  - vm_compute. reflexivity.
Defined.

Example busy_trace_history :
  exists d',
    drivers (serve example_runtime busy_trace seeded) !! 1%N = Some d'
    /\ length (trackingHistory d') = 2%nat
    /\ isTracking d' = true.
Proof. eexists. split; [vm_compute; reflexivity|]. split; reflexivity. Qed.

(** ** Location payloads, further *)

Lemma location_accepted_stored rt body e s i d :
  addresses rt body i ->
  drivers s !! i = Some d ->
  (post_api_driver_location rt body e s).1 = accepted ->
  exists loc,
    normalized rt body = Return loc
    /\ drivers (post_api_driver_location rt body e s).2 !! i =
         Some (touch (clock e) (set_location_and_push loc loc d)).
Proof.
  intros Hid Hd Hok.
  destruct (location_accepted_inv rt body e s i d Hid Hd Hok) as (loc & Hloc & ->).
  exists loc. split; [exact Hloc|]. simpl. apply lookup_insert_eq.
Qed.

Lemma castNumber_number rt path n :
  isNaN n = false -> castNumber rt path (VNumber n) = Return (Some n).
Proof. intros H. simpl. rewrite H. reflexivity. Qed.

(** X14. The location route checks no range: for an existing driver, a
    payload whose latitude, longitude, accuracy and speed are numbers (speed
    not zero) and whose timestamp is a point in time is accepted, and the
    snapshot and the new history entry hold those numbers as sent, negative
    accuracy or speed included. *)
Theorem location_numbers_stored_as_sent rt body e s i d a b c v t :
  connected e = true ->
  addresses rt body i ->
  drivers s !! i = Some d ->
  prop body "latitude" = VNumber a -> isNaN a = false ->
  prop body "longitude" = VNumber b -> isNaN b = false ->
  prop body "accuracy" = VNumber c -> isNaN c = false ->
  prop body "speed" = VNumber v -> isNaN v = false -> is_zero v = false ->
  new_Date rt (prop body "timestamp") = DateValue t ->
  exists d',
    post_api_driver_location rt body e s =
      (Return {| status := 200; json := Success |},
       with_drivers (<[i := d']> (drivers s)) s)
    /\ lastLocation d' =
         {| lat := Some a; lng := Some b; timestamp := Some t; speed := Some v;
            accuracy := Some c; address := None |}
    /\ trackingHistory d' = trackingHistory d ++ [lastLocation d'].
Proof.
  intros Hc Hid Hd Ha Hna Hb Hnb Hac Hnc Hv Hnv Hzv Ht.
  assert (normalized rt body =
            Return {| lat := Some a; lng := Some b; timestamp := Some t;
                      speed := Some v; accuracy := Some c; address := None |}) as Hn.
  { unfold normalized, castLocation, location_fields. simpl.
    rewrite Ha, Hb, Hac, Hv, Ht. unfold or_else. simpl.
    rewrite Hna, Hnb, Hnc, Hnv, Hzv. simpl. rewrite Hnv. reflexivity. }
  eexists. split; [apply (location_applied rt body e s i d _ Hc Hid Hd Hn)|].
  split; reflexivity.
Qed.

Lemma location_numbers_stored_as_sent_witness :
  exists d',
    post_api_driver_location example_runtime negative_body (online 3000) seeded =
      (Return {| status := 200; json := Success |},
       with_drivers (<[1%N := d']> (drivers seeded)) seeded)
    /\ lastLocation d' =
         {| lat := Some (Finite 81 (-1)); lng := Some (Finite (-297) (-2));
            timestamp := Some 1700000000000; speed := Some (of_Z (-3));
            accuracy := Some (of_Z (-1)); address := None |}
    /\ trackingHistory d' = trackingHistory maria ++ [lastLocation d'].
Proof.
  apply (location_numbers_stored_as_sent example_runtime negative_body (online 3000)
           seeded 1%N maria); (vm_compute; reflexivity).
Defined.

Lemma normalized_falsy_speed rt body loc :
  ToBoolean (prop body "speed") = false ->
  normalized rt body = Return loc ->
  speed loc = Some (of_Z 0).
Proof.
  intros Hs H.
  apply normalized_inv in H as (la & ln & ac & ts & sp & _ & _ & _ & _ & Hsp & ->).
  unfold or_else in Hsp. rewrite Hs in Hsp. simpl in Hsp.
  injection Hsp as <-. reflexivity.
Qed.

(** X15. [speed || 0]: an accepted location update whose speed is missing,
    null, false, zero, NaN or the empty string stores the speed 0, in the
    snapshot and in the history entry. *)
Theorem location_falsy_speed_is_zero rt body e s i d :
  addresses rt body i ->
  drivers s !! i = Some d ->
  (post_api_driver_location rt body e s).1 = accepted ->
  ToBoolean (prop body "speed") = false ->
  exists d',
    drivers (post_api_driver_location rt body e s).2 !! i = Some d'
    /\ speed (lastLocation d') = Some (of_Z 0)
    /\ speed <$> last (trackingHistory d') = Some (Some (of_Z 0)).
Proof.
  intros Hid Hd Hok Hs.
  destruct (location_accepted_stored rt body e s i d Hid Hd Hok) as (loc & Hloc & H).
  eexists. split; [exact H|]. simpl. rewrite last_snoc. simpl.
  rewrite (normalized_falsy_speed rt body loc Hs Hloc). auto.
Qed.

Lemma location_falsy_speed_is_zero_witness :
  exists d',
    drivers (post_api_driver_location example_runtime null_speed
               (online 3000) seeded).2 !! 1%N = Some d'
    /\ speed (lastLocation d') = Some (of_Z 0)
    /\ speed <$> last (trackingHistory d') = Some (Some (of_Z 0)).
Proof.
  apply (location_falsy_speed_is_zero example_runtime null_speed (online 3000)
           seeded 1%N maria); (vm_compute; reflexivity).
Defined.

Lemma new_Date_integer rt t :
  new_Date rt (VNumber (of_Z t)) =
    if 8640000000000000 <? Z.abs t then InvalidDate else DateValue t.
Proof.
  unfold new_Date, of_Z, TimeClip. change (0 <=? 0) with true. cbv iota.
  change (2 ^ 0) with 1. rewrite !Z.mul_1_r. reflexivity.
Qed.

(** X16. A timestamp sent as a whole number of milliseconds is taken when it
    is within 8.64e15 ms of the epoch, and then stored as sent; beyond that
    range the update is answered with status 500 and stores nothing. *)
Theorem location_timestamp_range rt body e s t :
  prop body "timestamp" = VNumber (of_Z t) ->
  (8640000000000000 < Z.abs t ->
   exists err,
     post_api_driver_location rt body e s =
       (Return {| status := 500; json := ErrorMessage err |}, s))
  /\ (Z.abs t <= 8640000000000000 ->
      forall i d,
        addresses rt body i -> drivers s !! i = Some d ->
        (post_api_driver_location rt body e s).1 = accepted ->
        exists d',
          drivers (post_api_driver_location rt body e s).2 !! i = Some d'
          /\ timestamp (lastLocation d') = Some t).
Proof.
  intros Hts. split.
  - intros Hfar.
    assert (exists err, normalized rt body = Throw err) as [err Herr].
    { destruct (normalized rt body) as [loc|err] eqn:Hn; [|eauto].
      apply normalized_inv in Hn as (la & ln & ac & ts & sp & _ & _ & _ & Hd' & _ & _).
      rewrite Hts, new_Date_integer in Hd'.
      destruct (Z.ltb_spec 8640000000000000 (Z.abs t)); [discriminate | lia]. }
    eauto using location_rejected.
  - intros Hnear i d Hid Hd Hok.
    destruct (location_accepted_stored rt body e s i d Hid Hd Hok) as (loc & Hloc & H).
    eexists. split; [exact H|]. simpl.
    apply normalized_inv in Hloc as (la & ln & ac & ts & sp & _ & _ & _ & Hd' & _ & ->).
    rewrite Hts, new_Date_integer in Hd'.
    destruct (Z.ltb_spec 8640000000000000 (Z.abs t)); [lia|].
    injection Hd' as <-. reflexivity.
Qed.

Lemma location_timestamp_range_witness :
  (exists err,
     post_api_driver_location example_runtime far_timestamp (online 3000) seeded =
       (Return {| status := 500; json := ErrorMessage err |}, seeded))
  /\ exists d',
       drivers (post_api_driver_location example_runtime location_body
                  (online 3000) seeded).2 !! 1%N = Some d'
       /\ timestamp (lastLocation d') = Some 1700000000000.
Proof.
  split.
  - apply (location_timestamp_range example_runtime far_timestamp (online 3000) seeded
             8640000000000001); [vm_compute; reflexivity | lia].
  - apply (location_timestamp_range example_runtime location_body (online 3000) seeded
             1700000000000) with (i := 1%N) (d := maria);
      [vm_compute; reflexivity | lia | vm_compute; reflexivity..].
Defined.

(** X17. The timestamp stored by an accepted location update is the one
    [new Date] makes of the payload's timestamp, never the server's clock at
    receipt; a null timestamp is therefore stored as the epoch. *)
Theorem stored_timestamp_is_the_payloads rt body e s i d :
  addresses rt body i ->
  drivers s !! i = Some d ->
  (post_api_driver_location rt body e s).1 = accepted ->
  exists d' t,
    drivers (post_api_driver_location rt body e s).2 !! i = Some d'
    /\ new_Date rt (prop body "timestamp") = DateValue t
    /\ timestamp (lastLocation d') = Some t
    /\ (prop body "timestamp" = VNull -> t = 0).
Proof.
  intros Hid Hd Hok.
  destruct (location_accepted_stored rt body e s i d Hid Hd Hok) as (loc & Hloc & H).
  apply normalized_inv in Hloc as (la & ln & ac & ts & sp & _ & _ & _ & Hd' & _ & ->).
  eexists _, ts. split; [exact H|]. split; [exact Hd'|]. split; [reflexivity|].
  intros Hnull. rewrite Hnull in Hd'. simpl in Hd'. congruence.
Qed.

Lemma stored_timestamp_is_the_payloads_witness :
  exists d' t,
    drivers (post_api_driver_location example_runtime null_timestamp
               (online 3000) seeded).2 !! 1%N = Some d'
    /\ new_Date example_runtime (prop null_timestamp "timestamp") = DateValue t
    /\ timestamp (lastLocation d') = Some t
    /\ (prop null_timestamp "timestamp" = VNull -> t = 0).
Proof.
  apply (stored_timestamp_is_the_payloads example_runtime null_timestamp (online 3000)
           seeded 1%N maria); (vm_compute; reflexivity).
Defined.

(** ** Updates of different drivers *)

Lemma tracking_addressed rt body e s i :
  addresses rt body i ->
  post_api_driver_tracking rt body e s =
    let t := strict_equals (prop body "action") (VString "start_tracking") in
    let f := fun d => touch (clock e)
                        (set_tracking t t (if t then Some (clock e) else None) d) in
    if connected e
    then match drivers s !! i with
         | Some d => (Return {| status := 200; json := SuccessDriver (f d) |},
                      replace_document i (Some f) s)
         | None => (Return {| status := 404; json := DriverNotFound |},
                    replace_document i (Some f) s)
         end
    else (Return {| status := 500; json := ErrorMessage MongoError |},
          replace_document i None s).
Proof.
  intros Hid. rewrite tracking_unfold.
  unfold Driver_findOneAndUpdate, bind, lift, on_store, replace_document.
  unfold addresses in Hid. rewrite Hid, castUpdate_tracking. cbv zeta.
  destruct (connected e); [|reflexivity].
  destruct (drivers s !! i); reflexivity.
Qed.

Lemma location_addressed rt body e s i :
  addresses rt body i ->
  post_api_driver_location rt body e s =
    match normalized rt body with
    | Throw err => (Return {| status := 500; json := ErrorMessage err |},
                    replace_document i None s)
    | Return loc =>
        let f := fun d => touch (clock e) (set_location_and_push loc loc d) in
        if connected e
        then match drivers s !! i with
             | Some d => (Return {| status := 200; json := Success |},
                          replace_document i (Some f) s)
             | None => (Return {| status := 404; json := DriverNotFound |},
                        replace_document i (Some f) s)
             end
        else (Return {| status := 500; json := ErrorMessage MongoError |},
              replace_document i None s)
    end.
Proof.
  intros Hid. rewrite location_unfold.
  unfold Driver_findOneAndUpdate, bind, lift, on_store, replace_document.
  unfold addresses in Hid. rewrite Hid.
  destruct (normalized rt body) as [loc|err] eqn:Hn.
  - rewrite (castUpdate_location_ok _ _ _ Hn). cbv zeta.
    destruct (connected e); [|reflexivity].
    destruct (drivers s !! i); reflexivity.
  - rewrite (castUpdate_location_fails _ _ _ Hn). reflexivity.
Qed.

(** An update that names the document [i] reads and writes that document
    only. *)
Lemma update_is_local rt r e i :
  updates rt r i ->
  exists (answer : option Driver -> outcome response) (o : option (Driver -> Driver)),
    forall s,
      handle rt r e s = (answer (drivers s !! i), replace_document i o s).
Proof.
  destruct r as [|body|body|body|]; simpl; try contradiction; intros Hid.
  - destruct (connected e) eqn:Hc.
    + eexists (fun od => match od with
                         | Some d => Return {| status := 200; json := SuccessDriver _ |}
                         | None => _
                         end), _.
      intros s. rewrite (tracking_addressed rt body e s i Hid), Hc. cbv zeta.
      destruct (drivers s !! i); reflexivity.
    + eexists (fun _ => _), _. intros s.
      rewrite (tracking_addressed rt body e s i Hid), Hc. reflexivity.
  - destruct (normalized rt body) as [loc|err] eqn:Hn.
    + destruct (connected e) eqn:Hc.
      * eexists (fun od => match od with Some d => _ | None => _ end), _.
        intros s. rewrite (location_addressed rt body e s i Hid), Hn, Hc. cbv zeta.
        destruct (drivers s !! i); reflexivity.
      * eexists (fun _ => _), _. intros s.
        rewrite (location_addressed rt body e s i Hid), Hn, Hc. reflexivity.
    + eexists (fun _ => _), _. intros s.
      rewrite (location_addressed rt body e s i Hid), Hn. reflexivity.
Qed.

Lemma replace_document_other i o s j :
  i <> j -> drivers (replace_document i o s) !! j = drivers s !! j.
Proof.
  intros Hne. unfold replace_document.
  destruct o as [f|]; [|reflexivity].
  destruct (drivers s !! i); [|reflexivity].
  simpl. apply lookup_insert_ne, Hne.
Qed.

Lemma replace_document_commute i j o1 o2 s :
  i <> j ->
  replace_document j o2 (replace_document i o1 s) =
    replace_document i o1 (replace_document j o2 s).
Proof.
  intros Hne.
  assert (j <> i) as Hne' by congruence.
  pose proof (replace_document_other i o1 s j Hne) as Hj.
  pose proof (replace_document_other j o2 s i Hne') as Hi.
  unfold replace_document in *.
  destruct o1 as [f1|], o2 as [f2|]; try reflexivity;
    destruct (drivers s !! i) as [di|] eqn:Ei;
    destruct (drivers s !! j) as [dj|] eqn:Ej; simpl in *;
    rewrite ?Hi, ?Hj, ?Ei, ?Ej; try reflexivity.
  unfold with_drivers. simpl. f_equal. apply insert_insert_ne. congruence.
Qed.

(** X18. Toggles and location updates of different drivers do not interfere:
    served in either order they leave the same store, and the answer to each
    is the one it would get alone. *)
Theorem updates_of_different_drivers_commute rt r1 r2 e1 e2 s i j :
  updates rt r1 i ->
  updates rt r2 j ->
  i <> j ->
  (handle rt r2 e2 (handle rt r1 e1 s).2).2 = (handle rt r1 e1 (handle rt r2 e2 s).2).2
  /\ (handle rt r2 e2 (handle rt r1 e1 s).2).1 = (handle rt r2 e2 s).1
  /\ (handle rt r1 e1 (handle rt r2 e2 s).2).1 = (handle rt r1 e1 s).1.
Proof.
  intros H1 H2 Hne.
  destruct (update_is_local rt r1 e1 i H1) as (a1 & o1 & E1).
  destruct (update_is_local rt r2 e2 j H2) as (a2 & o2 & E2).
  rewrite (E1 s), (E2 s). simpl.
  rewrite (E1 (replace_document j o2 s)), (E2 (replace_document i o1 s)). simpl.
  rewrite replace_document_commute by exact Hne.
  rewrite (replace_document_other i o1 s j Hne).
  rewrite (replace_document_other j o2 s i) by congruence.
  auto.
Qed.

Lemma updates_of_different_drivers_commute_witness :
  (handle example_runtime (ToggleTracking start_body) (online 3000)
     (handle example_runtime (SubmitLocation john_location) (online 2500) seeded).2).2
  = (handle example_runtime (SubmitLocation john_location) (online 2500)
       (handle example_runtime (ToggleTracking start_body) (online 3000) seeded).2).2
  /\ (handle example_runtime (ToggleTracking start_body) (online 3000)
        (handle example_runtime (SubmitLocation john_location) (online 2500) seeded).2).1
     = (handle example_runtime (ToggleTracking start_body) (online 3000) seeded).1
  /\ (handle example_runtime (SubmitLocation john_location) (online 2500)
        (handle example_runtime (ToggleTracking start_body) (online 3000) seeded).2).1
     = (handle example_runtime (SubmitLocation john_location) (online 2500) seeded).1.
Proof.
  apply (updates_of_different_drivers_commute example_runtime
           (SubmitLocation john_location) (ToggleTracking start_body)
           (online 2500) (online 3000) seeded 0%N 1%N).
  - vm_compute. reflexivity.
  - vm_compute. reflexivity.
  - discriminate.
Defined.

(** * Location runs and interleaved calls *)










(** The update that arrives between the two calls of the seeding finds no
    document, and so does the toggle after it: the identifiers are new. *)
Example racing_calls_store :
  drivers (perform_all example_runtime racing_calls active) !! 1%N = None
  /\ size (drivers (perform_all example_runtime racing_calls active)) = 4%nat.
Proof. split; vm_compute; reflexivity. Qed.

(** The history after the two calls of [two_calls]: the valid payload as the
    spec normalizes it, then the one without latitude. *)
Example two_calls_history :
  exists d',
    drivers (submit_all example_runtime two_calls seeded).2 !! 1%N = Some d'
    /\ trackingHistory d' =
         [ {| lat := Some (Finite 81 (-1)); lng := Some (Finite (-297) (-2));
              timestamp := Some 1700000000000; speed := Some (of_Z 0);
              accuracy := Some (of_Z 5); address := None |};
           {| lat := None; lng := Some (Finite (-297) (-2));
              timestamp := Some 1700000000000; speed := Some (of_Z 0);
              accuracy := Some (of_Z 5); address := None |} ]
    /\ lastLocation d' =
         {| lat := None; lng := Some (Finite (-297) (-2));
            timestamp := Some 1700000000000; speed := Some (of_Z 0);
            accuracy := Some (of_Z 5); address := None |}.
Proof. eexists. split; [vm_compute; reflexivity|]. split; reflexivity. Qed.
